(** * Resource harvesting and assurance pipeline of the web cloner

    A shallow embedding of [app/validator.py], [app/fallback.py],
    [app/optimizer.py], [app/quality.py] and the resource pipeline of
    [app/cloner.py], together with the properties the specification
    states about them.

    Conventions.
    - Python [bytes] are lists of [Byte.byte]; Python [str] values are
      lists of Unicode code points ([N]).
    - The job state (dedup set, output directory, log of issued
      fetches) is threaded explicitly through every operation.
    - The network, the image codec and the CSS compressor are external
      to the repository; they are parameters of the model. *)

From Stdlib Require Import ZArith NArith QArith Qround Lia List Bool.
From Stdlib.Strings Require Import Ascii String Byte.
From stdpp Require Import base decidable option numbers list gmap sets.

Local Open Scope N_scope.

(** ** Python primitives *)

Module Py.

Definition bytes := list byte.
Definition str := list N.

#[global] Instance byte_eq_dec : EqDecision byte := Byte.byte_eq_dec.

(** Byte-string and text literals (ASCII only). *)
Definition b (s : string) : bytes := list_byte_of_string s.
Definition u (s : string) : str := map Byte.to_N (list_byte_of_string s).

Section Sequences.
Context {A : Type} `{EqDecision A}.

(** [s.startswith(p)] *)
Fixpoint startswith (s p : list A) : bool :=
  match p, s with
  | [], _ => true
  | _ :: _, [] => false
  | y :: p', x :: s' => bool_decide (x = y) && startswith s' p'
  end.

(** [s.endswith(p)] *)
Definition endswith (s p : list A) : bool := startswith (rev s) (rev p).

(** [p in s] for sequences: [p] occurs as a contiguous block. *)
Fixpoint contains (s p : list A) : bool :=
  startswith s p ||
  match s with
  | [] => false
  | _ :: s' => contains s' p
  end.

(** [s.count(p)] for a non-empty [p]: occurrences are counted from
    left to right without overlap; [skip] is the number of elements
    still covered by the last occurrence found. *)
Fixpoint count_from (skip : nat) (s p : list A) : nat :=
  match s with
  | [] => O
  | _ :: s' =>
      match skip with
      | S k => count_from k s' p
      | O => if startswith s p
             then S (count_from (length p - 1) s' p)
             else count_from O s' p
      end
  end.
Definition count (s p : list A) : nat := count_from O s p.

(** [s.replace(old, new)] for a non-empty [old]: every occurrence,
    left to right without overlap. *)
Fixpoint replace_from (skip : nat) (s old new : list A) : list A :=
  match s with
  | [] => []
  | x :: s' =>
      match skip with
      | S k => replace_from k s' old new
      | O => if startswith s old
             then new ++ replace_from (length old - 1) s' old new
             else x :: replace_from O s' old new
      end
  end.
Definition replace (s old new : list A) : list A := replace_from O s old new.

(** Removal of the leading elements that satisfy [f], and of the
    leading and trailing ones. *)
Fixpoint lstrip_by (f : A -> bool) (s : list A) : list A :=
  match s with
  | [] => []
  | x :: s' => if f x then lstrip_by f s' else s
  end.
Definition strip_by (f : A -> bool) (s : list A) : list A :=
  rev (lstrip_by f (rev (lstrip_by f s))).

(** [any(p in s for p in ps)] *)
Definition any_in (s : list A) (ps : list (list A)) : bool :=
  existsb (contains s) ps.
End Sequences.

(** *** bytes *)

(** The bytes removed by [bytes.lstrip()]: space, TAB, LF, VT, FF, CR. *)
Definition byte_isspace (c : byte) : bool :=
  let n := Byte.to_N c in (n =? 32) || ((9 <=? n) && (n <=? 13)).

Definition bytes_lstrip (d : bytes) : bytes := lstrip_by byte_isspace d.

(** [bytes.lower()]: only the ASCII letters change. *)
Definition byte_lower (c : byte) : byte :=
  let n := Byte.to_N c in
  if (65 <=? n) && (n <=? 90)
  then match Byte.of_N (n + 32) with Some c' => c' | None => c end
  else c.
Definition bytes_lower (d : bytes) : bytes := map byte_lower d.

(** *** str *)

(** [str.isspace] for one character, which is also what [\s] matches
    in a text pattern and what [str.strip()] removes. *)
Definition isspace (c : N) : bool :=
  ((9 <=? c) && (c <=? 13)) || ((28 <=? c) && (c <=? 32)) ||
  (c =? 0x85) || (c =? 0xA0) || (c =? 0x1680) ||
  ((0x2000 <=? c) && (c <=? 0x200A)) ||
  (c =? 0x2028) || (c =? 0x2029) || (c =? 0x202F) || (c =? 0x205F) ||
  (c =? 0x3000).

Definition strip (s : str) : str := strip_by isspace s.

(** [str.lower()].  ASCII letters are mapped to lower case.  Outside
    ASCII only two characters have a lower-case form that contains an
    ASCII letter: U+0130 (to [i] followed by U+0307) and the Kelvin
    sign U+212A (to [k]).  Every other non-ASCII character is kept as
    it is: its lower-case form consists of non-ASCII characters too,
    and the source only ever tests a lowered text against ASCII
    patterns, which cannot tell the two apart. *)
Definition lower_char (c : N) : str :=
  if (65 <=? c) && (c <=? 90) then [c + 32]
  else if c =? 0x130 then [105; 0x307]
  else if c =? 0x212A then [107]
  else [c].
Definition lower (s : str) : str := flat_map lower_char s.

(** *** UTF-8 *)

Definition is_cont (c : N) : bool := (0x80 <=? c) && (c <=? 0xBF).

(** [bytes.decode('utf-8', errors=...)] after CPython's decoder; [err]
    is what one decoding error contributes to the result: nothing
    under [errors='ignore'], U+FFFD under [errors='replace'].  An
    invalid start byte is an error of one byte, an invalid
    continuation byte an error covering the bytes before it, and a
    sequence cut off by the end of the data one error up to the end. *)
Fixpoint utf8_decode (err : str) (s : list N) : str :=
  match s with
  | [] => []
  | c1 :: t1 =>
      if c1 <? 0x80 then c1 :: utf8_decode err t1
      else if c1 <? 0xC2 then err ++ utf8_decode err t1
      else if c1 <? 0xE0 then
        match t1 with
        | [] => err
        | c2 :: t2 =>
            if is_cont c2
            then (c1 * 64 + c2 - 0x3080) :: utf8_decode err t2
            else err ++ utf8_decode err t1
        end
      else if c1 <? 0xF0 then
        match t1 with
        | [] => err
        | c2 :: t2 =>
            if negb (is_cont c2) || (if c2 <? 0xA0 then c1 =? 0xE0 else c1 =? 0xED)
            then err ++ utf8_decode err t1
            else
              match t2 with
              | [] => err
              | c3 :: t3 =>
                  if is_cont c3
                  then (c1 * 4096 + c2 * 64 + c3 - 0xE2080) :: utf8_decode err t3
                  else err ++ utf8_decode err t2
              end
        end
      else if c1 <? 0xF5 then
        match t1 with
        | [] => err
        | c2 :: t2 =>
            if negb (is_cont c2) || (if c2 <? 0x90 then c1 =? 0xF0 else c1 =? 0xF4)
            then err ++ utf8_decode err t1
            else
              match t2 with
              | [] => err
              | c3 :: t3 =>
                  if negb (is_cont c3) then err ++ utf8_decode err t2
                  else
                    match t3 with
                    | [] => err
                    | c4 :: t4 =>
                        if is_cont c4
                        then (c1 * 262144 + c2 * 4096 + c3 * 64 + c4 - 0x3C82080)
                               :: utf8_decode err t4
                        else err ++ utf8_decode err t3
                    end
              end
        end
      else err ++ utf8_decode err t1
  end.

(** [data.decode('utf-8', errors='ignore')] *)
Definition decode_ignore (d : bytes) : str := utf8_decode [] (map Byte.to_N d).

(** [data.decode('utf-8', errors='replace')] *)
Definition decode_replace (d : bytes) : str := utf8_decode [0xFFFD] (map Byte.to_N d).

Definition byte_of_N (n : N) : byte :=
  match Byte.of_N (n mod 256) with Some c => c | None => x00 end.

(** [str.encode('utf-8')] of one character (surrogates, which no
    decoder produces, are not treated apart). *)
Definition utf8_encode_char (c : N) : bytes :=
  if c <? 0x80 then [byte_of_N c]
  else if c <? 0x800 then [byte_of_N (0xC0 + c / 64); byte_of_N (0x80 + c mod 64)]
  else if c <? 0x10000 then
    [byte_of_N (0xE0 + c / 4096); byte_of_N (0x80 + (c / 64) mod 64);
     byte_of_N (0x80 + c mod 64)]
  else
    [byte_of_N (0xF0 + c / 262144); byte_of_N (0x80 + (c / 4096) mod 64);
     byte_of_N (0x80 + (c / 64) mod 64); byte_of_N (0x80 + c mod 64)].
Definition utf8_encode (s : str) : bytes := flat_map utf8_encode_char s.

(** Universal newlines of a file opened in text mode for reading:
    CR LF and a lone CR both read as LF. *)
Fixpoint universal_newlines (s : str) : str :=
  match s with
  | [] => []
  | c :: t =>
      if c =? 13 then
        match t with
        | c' :: t' => if c' =? 10 then 10 :: universal_newlines t'
                      else 10 :: universal_newlines t
        | [] => [10]
        end
      else c :: universal_newlines t
  end.

(** What [f.read()] returns for a file opened with mode ['r'],
    UTF-8 and [errors='ignore'], and the bytes [f.write(s)] leaves in a
    file opened with mode ['w'] and UTF-8. *)
Definition read_text (d : bytes) : str := universal_newlines (decode_ignore d).
Definition write_text (s : str) : bytes := utf8_encode s.

End Py.
Import Py.

(** ** app/validator.py: ResourceValidator *)

(** The keys of [valid_headers]. *)
Definition valid_headers : list bytes :=
  [ [xff; xd8; xff];                      (* jpg *)
    x89 :: b "PNG";                       (* png *)
    b "GIF89a"; b "GIF87a";               (* gif *)
    b "<svg";                             (* svg *)
    b "RIFF";                             (* webp *)
    [x00; x00; x01; x00] ].               (* ico *)

Definition is_valid_image (data : bytes) (url : str) : bool :=
  match data with
  | [] => false
  | _ =>
      if startswith (bytes_lstrip data) (b "<!DOCTYPE")
         || startswith (bytes_lstrip data) (b "<html")
      then false
      else if contains (bytes_lower (take 100 data)) (b "<svg") then true
      else existsb (startswith data) valid_headers
  end.

Definition has_css_syntax (text : str) : bool :=
  (contains text (u "{") && contains text (u "}"))
  || contains text (u "@import")
  || contains text (u "@media")
  || contains text (u "@font-face")
  || contains text (u "body")
  || contains text (u "color:").

Definition is_valid_css (data : bytes) : bool :=
  match data with
  | [] => false
  | _ =>
      let text := strip (decode_ignore data) in
      if startswith (lower text) (u "<!doctype") || contains (lower text) (u "<html")
      then false
      else if (20 <? length text)%nat then has_css_syntax text else true
  end.

Definition is_valid_js (data : bytes) : bool :=
  match data with
  | [] => false
  | _ =>
      let text := strip (decode_ignore data) in
      if startswith (lower text) (u "<!doctype") || contains (lower text) (u "<html")
      then false
      else true
  end.

(** ** app/fallback.py: FallbackManager *)

(** [cdn_map], in insertion order, which is the order of iteration. *)
Definition cdn_map : list (str * str) :=
  [ (u "jquery", u "https://code.jquery.com/jquery-3.6.0.min.js");
    (u "bootstrap", u "https://cdn.jsdelivr.net/npm/bootstrap@5.3.0/dist/js/bootstrap.bundle.min.js");
    (u "fontawesome", u "https://cdnjs.cloudflare.com/ajax/libs/font-awesome/6.0.0/css/all.min.css");
    (u "animate.css", u "https://cdnjs.cloudflare.com/ajax/libs/animate.css/4.1.1/animate.min.css");
    (u "tailwind", u "https://cdn.tailwindcss.com");
    (u "vue", u "https://unpkg.com/vue@3/dist/vue.global.js");
    (u "react", u "https://unpkg.com/react@18/umd/react.production.min.js");
    (u "react-dom", u "https://unpkg.com/react-dom@18/umd/react-dom.production.min.js") ].

Definition get_cdn_url (original_url : str) : option str :=
  snd <$> List.find (fun kv => contains (lower original_url) (fst kv)) cdn_map.

(** ** The world outside the repository *)

(** What [page.request.get(url, timeout=30000)] does: it raises (a
    timeout or a connection error), or it returns a response with a
    status; [response.body()] then returns the payload or raises. *)
Inductive response :=
  | RequestError
  | Response (status : Z) (body : option bytes).

(** Resource kinds, the values of [resource_type]. *)
Inductive resource_type := Image | Css | Js | Font | Auto.

(** The collaborators of the pipeline.
    - [network n url]: the outcome of the request for [url] issued
      when [n] requests have been issued before it in the job.
    - [writable path]: whether opening [path] for writing succeeds.
    - [csscompressor_installed], [css_compress]: whether
      [import csscompressor] succeeds, and [csscompressor.compress],
      which returns the compressed text or raises.
    - [pillow path data]: what decoding [data] and encoding it again
      for the extension of [path] gives: the value [optimize_image]
      returns and the bytes the file holds afterwards.
    - [md5_hex8 url]: [hashlib.md5(url.encode()).hexdigest()[:8]].
    - [isalnum c]: whether the non-ASCII character [c] is matched by
      [\w] (the Unicode letters and digits). *)
Record env := {
  network : nat -> str -> response;
  writable : str -> bool;
  csscompressor_installed : bool;
  css_compress : str -> option str;
  pillow : str -> bytes -> bool * bytes;
  md5_hex8 : str -> str;
  isalnum : N -> bool
}.

(** ** app/optimizer.py: ResourceOptimizer *)

(** [s.find(p)] *)
Fixpoint find_sub (s p : str) : option nat :=
  if startswith s p then Some O
  else match s with
       | [] => None
       | _ :: s' => S <$> find_sub s' p
       end.

(** [re.sub(r'/\*.*?\*/', '', s, flags=re.DOTALL)]: from left to
    right, a [/*] that has a [*/] after it is removed up to the first
    such [*/]; [skip] counts the characters of the match still to be
    dropped. *)
Fixpoint strip_comments_from (skip : nat) (s : str) : str :=
  match s with
  | [] => []
  | c :: s' =>
      match skip with
      | S k => strip_comments_from k s'
      | O =>
          if startswith s (u "/*") then
            match find_sub (drop 2 s) (u "*/") with
            | Some k => strip_comments_from (k + 3) s'
            | None => c :: strip_comments_from O s'
            end
          else c :: strip_comments_from O s'
      end
  end.
Definition strip_comments (s : str) : str := strip_comments_from O s.

(** [re.sub(r'\s+', ' ', s)]: every maximal run of whitespace becomes
    one space; [in_run] tells that the run has been replaced already. *)
Fixpoint collapse_whitespace (in_run : bool) (s : str) : str :=
  match s with
  | [] => []
  | c :: s' =>
      if isspace c
      then if in_run then collapse_whitespace true s'
           else 32 :: collapse_whitespace true s'
      else c :: collapse_whitespace false s'
  end.

Definition is_punct (c : N) : bool :=
  (c =? 58) || (c =? 59) || (c =? 123) || (c =? 125).

(** [re.sub(r'\s*([:;{}])\s*', r'\1', s)]: whitespace is dropped when
    the run it belongs to ends at one of [: ; { }] or starts right
    after one; [after] tells that the whitespace following the last
    match is being consumed. *)
Fixpoint tighten (after : bool) (s : str) : str :=
  match s with
  | [] => []
  | c :: s' =>
      if is_punct c then c :: tighten true s'
      else if isspace c then
        if after then tighten true s'
        else match lstrip_by isspace s' with
             | p :: _ => if is_punct p then tighten false s'
                         else c :: tighten false s'
             | [] => c :: tighten false s'
             end
      else c :: tighten false s'
  end.

(** The output directory: the files under it, by path. *)
Abbreviation files := (gmap str bytes).

Section Optimizer.
Variable E : env.


(** [optimize_image(input_path)], with [output_path] at its default.
    All the work is Pillow's; a path that cannot be opened makes
    [Image.open] raise, which is caught. *)
Definition optimize_image (fs : files) (input_path : str) : bool * files :=
  match fs !! input_path with
  | None => (false, fs)
  | Some data =>
      let '(ok, data') := pillow E input_path data in
      (ok, <[input_path := data']> fs)
  end.

(** The [except Exception] branch of [minify_css]. *)
Definition minify_css_fallback (fs : files) (input_path output_path : str)
  : bool * files :=
  match fs !! input_path with
  | None => (false, fs)
  | Some data =>
      let content := read_text data in
      let compact := strip_comments content in
      let compact := collapse_whitespace false compact in
      let compact := tighten false compact in
      if writable E output_path
      then (true, <[output_path := write_text compact]> fs)
      else (false, fs)
  end.

Definition minify_css (fs : files) (input_path : str) (output_path : option str)
  : bool * files :=
  let output_path :=
    match output_path with
    | Some (c :: p) => c :: p
    | _ => input_path
    end in
  if negb (csscompressor_installed E) then (false, fs)
  else
    match fs !! input_path with
    | None => minify_css_fallback fs input_path output_path
    | Some data =>
        let content := read_text data in
        match css_compress E content with
        | None => minify_css_fallback fs input_path output_path
        | Some minified =>
            if negb (bool_decide (minified = [])) && (length minified <? length content)%nat
            then if writable E output_path
                 then (true, <[output_path := write_text minified]> fs)
                 else minify_css_fallback fs input_path output_path
            else (false, fs)
        end
    end.

Definition minify_js (fs : files) (input_path : str) (output_path : option str)
  : bool * files :=
  let output_path :=
    match output_path with
    | Some (c :: p) => c :: p
    | _ => input_path
    end in
  match fs !! input_path with
  | None => (false, fs)
  | Some data =>
      let content := read_text data in
      let compact := strip_comments content in
      if (length compact <? length content)%nat
      then if writable E output_path
           then (true, <[output_path := write_text compact]> fs)
           else (false, fs)
      else (false, fs)
  end.
End Optimizer.

(** ** urllib.parse, os.path and re, as far as the cloner uses them *)

(** [s.split(sep)] and [sep.join(l)] for a one-character separator. *)
Fixpoint split_on (sep : N) (s : str) : list str :=
  match s with
  | [] => [[]]
  | c :: s' =>
      if c =? sep then [] :: split_on sep s'
      else match split_on sep s' with
           | seg :: segs => (c :: seg) :: segs
           | [] => [[c]]
           end
  end.

Definition join_with (sep : N) (l : list str) : str :=
  match l with
  | [] => []
  | x :: xs => x ++ flat_map (fun y => sep :: y) xs
  end.

(** [s.partition(c)]: the text before the first [c], and the text
    after it when there is one. *)
Fixpoint cut_at (c : N) (s : str) : str * option str :=
  match s with
  | [] => ([], None)
  | x :: s' =>
      if x =? c then ([], Some s')
      else let '(a, r) := cut_at c s' in (x :: a, r)
  end.

Fixpoint take_while (f : N -> bool) (s : str) : str :=
  match s with
  | [] => []
  | c :: s' => if f c then c :: take_while f s' else []
  end.

Definition is_ascii_alpha (c : N) : bool :=
  ((65 <=? c) && (c <=? 90)) || ((97 <=? c) && (c <=? 122)).
Definition is_ascii_digit (c : N) : bool := (48 <=? c) && (c <=? 57).

(** The characters of [scheme_chars]. *)
Definition is_scheme_char (c : N) : bool :=
  is_ascii_alpha c || is_ascii_digit c || (c =? 43) || (c =? 45) || (c =? 46).

Record parsed_url := {
  scheme : str; netloc : str; path : str; params : str; query : str; fragment : str
}.

Definition uses_relative : list str :=
  map u [""; "ftp"; "http"; "gopher"; "nntp"; "imap"; "wais"; "file"; "https";
         "shttp"; "mms"; "prospero"; "rtsp"; "rtspu"; "sftp"; "svn"; "svn+ssh";
         "ws"; "wss"]%string.
Definition uses_netloc : list str :=
  map u [""; "ftp"; "http"; "gopher"; "nntp"; "telnet"; "imap"; "wais"; "file";
         "mms"; "https"; "shttp"; "snews"; "prospero"; "rtsp"; "rtspu"; "rsync";
         "svn"; "svn+ssh"; "sftp"; "nfs"; "git"; "git+ssh"; "ws"; "wss";
         "itms-services"]%string.
Definition uses_params : list str :=
  map u [""; "ftp"; "hdl"; "prospero"; "http"; "imap"; "https"; "shttp"; "rtsp";
         "rtspu"; "sip"; "sips"; "mms"; "sftp"; "tel"]%string.

Definition mem (x : str) (l : list str) : bool := bool_decide (x ∈ l).

(** [_splitparams]: the parameters start at the first [;] of the last
    path segment. *)
Definition splitparams (p : str) : str * str :=
  match rev (split_on 47 p) with
  | [] => (p, [])
  | last_seg :: before =>
      match cut_at 59 last_seg with
      | (seg, Some ps) => (join_with 47 (rev (seg :: before)), ps)
      | (_, None) => (p, [])
      end
  end.

(** [urlparse(url, scheme=default_scheme)] on the URLs that it accepts
    (an authority with unbalanced brackets makes it raise): leading
    control characters and spaces are dropped, TAB, CR and LF are
    removed, then scheme, authority, fragment, query and parameters
    are split off in this order. *)
Definition urlparse (url default_scheme : str) : parsed_url :=
  let url := lstrip_by (fun c => c <=? 32) url in
  let url := filter (fun c => negb ((c =? 9) || (c =? 10) || (c =? 13))) url in
  let '(sch, rest) :=
    match cut_at 58 url with
    | (c :: pre, Some post) =>
        if is_ascii_alpha c && forallb is_scheme_char (c :: pre)
        then (lower (c :: pre), post)
        else (default_scheme, url)
    | _ => (default_scheme, url)
    end in
  let '(loc, rest) :=
    if startswith rest (u "//") then
      let r := drop 2 rest in
      let l := take_while (fun c => negb ((c =? 47) || (c =? 63) || (c =? 35))) r in
      (l, drop (length l) r)
    else ([], rest) in
  let '(rest, frag) := cut_at 35 rest in
  let '(rest, qry) := cut_at 63 rest in
  let '(pth, prm) :=
    if mem sch uses_params && contains rest [59] then splitparams rest
    else (rest, []) in
  {| scheme := sch; netloc := loc; path := pth; params := prm;
     query := default [] qry; fragment := default [] frag |}.

(** [urlunparse] *)
Definition urlunparse (p : parsed_url) : str :=
  let url := match params p with [] => path p | ps => path p ++ 59 :: ps end in
  let url :=
    if negb (bool_decide (netloc p = []))
       || (negb (bool_decide (scheme p = [])) && mem (scheme p) uses_netloc
           && negb (startswith url (u "//")))
    then
      let url := match url with
                 | c :: _ => if c =? 47 then url else 47 :: url
                 | [] => url
                 end in
      u "//" ++ netloc p ++ url
    else url in
  let url := match scheme p with [] => url | s => s ++ 58 :: url end in
  let url := match query p with [] => url | q => url ++ 63 :: q end in
  match fragment p with [] => url | f => url ++ 35 :: f end.

(** The segment stack of [urljoin]: [..] pops (an empty stack stays
    empty), [.] is skipped; the stack is kept with its top first. *)
Definition resolve_segment (stack : list str) (seg : str) : list str :=
  if bool_decide (seg = u "..") then tl stack
  else if bool_decide (seg = u ".") then stack
  else seg :: stack.

(** [segments[1:-1] = filter(None, segments[1:-1])] *)
Definition drop_inner_empty (segments : list str) : list str :=
  match segments with
  | x :: (_ :: _) as rest =>
      x :: filter (fun s => negb (bool_decide (s = []))) (removelast rest)
        ++ [List.last rest []]
  | _ => segments
  end.

(** [urljoin(base, url)] *)
Definition urljoin (base url : str) : str :=
  match url, base with
  | [], _ => base
  | _, [] => url
  | _, _ =>
      let bp := urlparse base [] in
      let p := urlparse url (scheme bp) in
      if negb (bool_decide (scheme p = scheme bp)) || negb (mem (scheme p) uses_relative)
      then url
      else if mem (scheme p) uses_netloc && negb (bool_decide (netloc p = []))
      then urlunparse p
      else
        let loc := if mem (scheme p) uses_netloc then netloc bp else netloc p in
        if bool_decide (path p = []) && bool_decide (params p = []) then
          urlunparse {| scheme := scheme p; netloc := loc; path := path bp;
                        params := params bp;
                        query := match query p with [] => query bp | q => q end;
                        fragment := fragment p |}
        else
          let base_parts := split_on 47 (path bp) in
          let base_parts :=
            if bool_decide (List.last base_parts [] = []) then base_parts
            else removelast base_parts in
          let segments :=
            if startswith (path p) (u "/") then split_on 47 (path p)
            else drop_inner_empty (base_parts ++ split_on 47 (path p)) in
          let resolved := rev (fold_left resolve_segment segments []) in
          let resolved :=
            if mem (List.last segments []) [u "."; u ".."] then resolved ++ [[]]
            else resolved in
          let joined := match join_with 47 resolved with [] => u "/" | j => j end in
          urlunparse {| scheme := scheme p; netloc := loc; path := joined;
                        params := params p; query := query p;
                        fragment := fragment p |}
  end.

Definition hex_value (c : N) : option N :=
  if is_ascii_digit c then Some (c - 48)
  else if (65 <=? c) && (c <=? 70) then Some (c - 55)
  else if (97 <=? c) && (c <=? 102) then Some (c - 87)
  else None.

(** [unquote(s)]: inside every maximal run of ASCII characters each
    [%XX] with two hexadecimal digits stands for one byte, and the run
    is then decoded as UTF-8 with [errors='replace']; [run] holds the
    bytes of the current run, last first. *)
Fixpoint unquote_from (run : list N) (s : str) : str :=
  match s with
  | [] => utf8_decode [0xFFFD] (rev run)
  | c :: s' =>
      if negb (c <? 128) then
        utf8_decode [0xFFFD] (rev run) ++ c :: unquote_from [] s'
      else if c =? 37 then
        match s' with
        | h1 :: h2 :: s'' =>
            match hex_value h1, hex_value h2 with
            | Some a, Some d => unquote_from (a * 16 + d :: run) s''
            | _, _ => unquote_from (c :: run) s'
            end
        | _ => unquote_from (c :: run) s'
        end
      else unquote_from (c :: run) s'
  end.
Definition unquote (s : str) : str := unquote_from [] s.

(** [os.path.basename] *)
Definition basename (p : str) : str := List.last (split_on 47 p) [].

(** [os.path.join(a, b)] *)
Definition os_path_join (a c : str) : str :=
  if startswith c (u "/") then c
  else if bool_decide (a = []) || endswith a (u "/") then a ++ c
  else a ++ 47 :: c.

(** One match, at the start of [s], of the pattern that
    [process_css_urls] searches for: [url(], an optional quote (single
    or double), the captured group of one or more characters that are
    neither a quote, nor [)], nor whitespace, an optional quote, and
    [)].  The result is the group and the length of the match.  The
    group is the longest run of admissible characters; no shorter one
    can be followed by the rest of the pattern. *)
Definition is_quote (c : N) : bool := (c =? 34) || (c =? 39).
Definition is_url_char (c : N) : bool := negb (is_quote c || (c =? 41) || isspace c).

Definition match_css_url (s : str) : option (str * nat) :=
  if startswith s (u "url(") then
    let r := drop 4 s in
    let '(q1, r) := match r with
                    | c :: r' => if is_quote c then (1%nat, r') else (O, r)
                    | [] => (O, r)
                    end in
    match take_while is_url_char r with
    | [] => None
    | g =>
        let r := drop (length g) r in
        let '(q2, r) := match r with
                        | c :: r' => if is_quote c then (1%nat, r') else (O, r)
                        | [] => (O, r)
                        end in
        match r with
        | c :: _ => if c =? 41 then Some (g, (4 + q1 + length g + q2 + 1)%nat) else None
        | [] => None
        end
    end
  else None.

(** [re.findall] of that pattern: the groups of the matches found from
    left to right, a new search starting where the last match ends. *)
Fixpoint findall_css_urls_from (skip : nat) (s : str) : list str :=
  match s with
  | [] => []
  | _ :: s' =>
      match skip with
      | S k => findall_css_urls_from k s'
      | O =>
          match match_css_url s with
          | Some (g, n) => g :: findall_css_urls_from (n - 1) s'
          | None => findall_css_urls_from O s'
          end
      end
  end.
Definition findall_css_urls (s : str) : list str := findall_css_urls_from O s.

(** ** app/cloner.py: ClonerPro *)

(** The state of one job: the fields of [self] that the pipeline
    reads and writes, the files under the output directory, and the
    requests issued so far, oldest first. *)
Record job := {
  url : str;
  output_dir : str;
  downloaded : gset str;
  fs : files;
  requests : list str
}.

Definition with_downloaded (st : job) (d : gset str) : job :=
  {| url := url st; output_dir := output_dir st; downloaded := d;
     fs := fs st; requests := requests st |}.
Definition with_fs (st : job) (f : files) : job :=
  {| url := url st; output_dir := output_dir st; downloaded := downloaded st;
     fs := f; requests := requests st |}.
Definition with_requests (st : job) (r : list str) : job :=
  {| url := url st; output_dir := output_dir st; downloaded := downloaded st;
     fs := fs st; requests := r |}.

(** [self.dirs] *)
Definition dirs_images (st : job) : str :=
  os_path_join (os_path_join (output_dir st) (u "assets")) (u "images").
Definition dirs_fonts (st : job) : str :=
  os_path_join (os_path_join (output_dir st) (u "assets")) (u "fonts").
Definition dirs_icons (st : job) : str :=
  os_path_join (os_path_join (output_dir st) (u "assets")) (u "icons").
Definition dirs_css (st : job) : str := os_path_join (output_dir st) (u "css").
Definition dirs_js (st : job) : str := os_path_join (output_dir st) (u "js").

(** Truth value of a payload: [None] and [b''] are false. *)
Definition truthy (content : option bytes) : option bytes :=
  match content with
  | Some (c :: d) => Some (c :: d)
  | _ => None
  end.

(** The validation step of [download_resource]. *)
Definition is_valid (resource_type : resource_type) (content : bytes) (url : str) : bool :=
  match resource_type with
  | Image => is_valid_image content url
  | Css => is_valid_css content
  | Js => is_valid_js content
  | _ => true
  end.

Definition known_extensions : list str :=
  map u [".jpg"; ".jpeg"; ".png"; ".gif"; ".svg"; ".webp"; ".ico"; ".css"; ".js";
         ".woff"; ".woff2"; ".ttf"]%string.

Section Cloner.
Variable E : env.

Definition _fetch_content (st : job) (url : str) : option bytes * job :=
  let st' := with_requests st (requests st ++ [url]) in
  match network E (length (requests st)) url with
  | RequestError => (None, st')
  | Response status body =>
      if (status =? 200)%Z then (body, st') else (None, st')
  end.

(** Steps 1 and 2 of [download_resource]: the primary download and
    the single CDN fallback. *)
Definition fetch_with_fallback (st : job) (url : str) : option bytes * job :=
  let '(content, st) := _fetch_content st url in
  match truthy content with
  | Some c => (Some c, st)
  | None =>
      match get_cdn_url url with
      | Some (c :: r) =>
          let '(content, st) := _fetch_content st (c :: r) in
          (truthy content, st)
      | _ => (None, st)
      end
  end.

Definition download_resource (st : job) (url save_path : str)
    (resource_type : resource_type) : bool * job :=
  if bool_decide (url ∈ downloaded st) then (true, st)
  else
    let '(content, st) := fetch_with_fallback st url in
    match content with
    | None => (false, st)
    | Some content =>
        if negb (is_valid resource_type content url) then (false, st)
        else
          let st := with_downloaded st ({[url]} ∪ downloaded st) in
          if negb (writable E save_path) then (false, st)
          else
            let st := with_fs st (<[save_path := content]> (fs st)) in
            let st :=
              match resource_type with
              | Image => with_fs st (snd (optimize_image E (fs st) save_path))
              | Css => with_fs st (snd (minify_css E (fs st) save_path None))
              | Js => with_fs st (snd (minify_js E (fs st) save_path None))
              | _ => st
              end in
            (true, st)
    end.

(** [\w] of a text pattern, and the substitution
    [re.sub(r'[^\w\-_\.]', '_', filename)]. *)
Definition is_word (c : N) : bool :=
  if c <? 128 then is_ascii_alpha c || is_ascii_digit c || (c =? 95)
  else isalnum E c.
Definition safe_char (c : N) : N :=
  if is_word c || (c =? 45) || (c =? 95) || (c =? 46) then c else 95.

Definition sanitize_filename (url default_ext : str) : str :=
  let filename := basename (unquote (path (urlparse url []))) in
  let filename :=
    if bool_decide (filename = []) || (100 <? length filename)%nat
    then u "resource_" ++ md5_hex8 E url ++ default_ext
    else filename in
  let filename := map safe_char filename in
  if negb (bool_decide (default_ext = []))
     && negb (existsb (endswith (lower filename)) known_extensions)
  then filename ++ default_ext
  else filename.
End Cloner.

(** The job after a payload has been accepted for [url] and written
    to [save_path], before any optimisation. *)
Definition persisted (st : job) (url save_path : str) (content : bytes) : job :=
  with_fs (with_downloaded st ({[url]} ∪ downloaded st))
          (<[save_path := content]> (fs st)).

(** *** The document

    The passes below read and write attributes of elements and never
    add, remove or move one, so the tree is kept as the list of its
    elements in document order, which is the order [find_all] returns
    them in.  [attrs] holds the attributes with a single value; [rel],
    which the parser keeps as the list of its tokens, is apart.  The
    document is the one left by steps 1 to 2.1 of [process_page]
    (tracker removal, form neutralisation, removal of [base]). *)
Record element := {
  tag : str;
  attrs : gmap str str;
  rel : option (list str)
}.

Definition set_attr (el : element) (k v : str) : element :=
  {| tag := tag el; attrs := <[k := v]> (attrs el); rel := rel el |}.
Definition del_attr (el : element) (k : str) : element :=
  {| tag := tag el; attrs := delete k (attrs el); rel := rel el |}.
Definition has_attr (el : element) (k : str) : bool :=
  bool_decide (is_Some (attrs el !! k)).
Definition get_attr (el : element) (k : str) : str := default [] (attrs el !! k).
Definition has_rel (el : element) (r : str) : bool :=
  match rel el with
  | Some tokens => mem r tokens
  | None => false
  end.

(** [for el in soup.find_all(...): body]: the selected elements are
    visited in document order, the others are left alone. *)
Fixpoint for_each (select : element -> bool) (body : job -> element -> element * job)
    (st : job) (doc : list element) : list element * job :=
  match doc with
  | [] => ([], st)
  | el :: doc' =>
      let '(el, st) := if select el then body st el else (el, st) in
      let '(doc', st) := for_each select body st doc' in
      (el :: doc', st)
  end.

Section Passes.
Variable E : env.

(** The body of the loop of [process_images]. *)
Definition process_image (st : job) (img : element) : element * job :=
  let src := strip (get_attr img (u "src")) in
  if bool_decide (src = []) || startswith src (u "data:") then (img, st)
  else
    let absolute_url := urljoin (url st) src in
    let filename := sanitize_filename E absolute_url (u ".jpg") in
    let save_path := os_path_join (dirs_images st) filename in
    let '(success, st) := download_resource E st absolute_url save_path Image in
    if success
    then (del_attr (del_attr (set_attr img (u "src") (u "assets/images/" ++ filename))
                      (u "srcset")) (u "data-src"), st)
    else (img, st).

Definition process_images (st : job) (soup : list element) : list element * job :=
  for_each (fun el => bool_decide (tag el = u "img") && has_attr el (u "src"))
           process_image st soup.

(** One turn of the loop of [process_css_urls]; the loop carries the
    text of the stylesheet, the flag [modified] and the job. *)
Definition process_css_url (base_url : str) (acc : str * bool * job) (url_match : str)
    : str * bool * job :=
  let '(css_content, modified, st) := acc in
  if startswith url_match (u "data:") || startswith url_match (u "#") then acc
  else
    let absolute_url := urljoin base_url url_match in
    let filename := sanitize_filename E absolute_url [] in
    let resolve save_path rel_path rtype :=
      let '(success, st) := download_resource E st absolute_url save_path rtype in
      if success then (replace css_content url_match rel_path, true, st)
      else (css_content, modified, st) in
    if any_in (lower url_match) [u ".woff"; u ".ttf"; u ".otf"]
    then resolve (os_path_join (dirs_fonts st) filename)
                 (u "../assets/fonts/" ++ filename) Font
    else if any_in (lower url_match) [u ".jpg"; u ".png"; u ".svg"]
    then resolve (os_path_join (dirs_images st) filename)
                 (u "../assets/images/" ++ filename) Image
    else acc.

(** [process_css_urls]; a stylesheet that cannot be read or written
    back raises inside the [try], which leaves the job as it is then. *)
Definition process_css_urls (st : job) (css_path base_url : str) : job :=
  match fs st !! css_path with
  | None => st
  | Some data =>
      let css_content := read_text data in
      let urls := findall_css_urls css_content in
      let '(css_content, modified, st) :=
        fold_left (process_css_url base_url) urls (css_content, false, st) in
      if modified && writable E css_path
      then with_fs st (<[css_path := write_text css_content]> (fs st))
      else st
  end.

(** The body of the loop of [process_css]. *)
Definition process_stylesheet (st : job) (link : element) : element * job :=
  let href := strip (get_attr link (u "href")) in
  if bool_decide (href = []) then (link, st)
  else
    let absolute_url := urljoin (url st) href in
    let filename := sanitize_filename E absolute_url (u ".css") in
    let save_path := os_path_join (dirs_css st) filename in
    let '(success, st) := download_resource E st absolute_url save_path Css in
    if success
    then let st := process_css_urls st save_path absolute_url in
         (set_attr link (u "href") (u "css/" ++ filename), st)
    else (link, st).

Definition process_css (st : job) (soup : list element) : list element * job :=
  for_each (fun el => bool_decide (tag el = u "link") && has_rel el (u "stylesheet")
                      && has_attr el (u "href"))
           process_stylesheet st soup.

(** The body of the loop of [process_js]. *)
Definition process_script (st : job) (script : element) : element * job :=
  let src := strip (get_attr script (u "src")) in
  if bool_decide (src = [])
     || any_in (lower src) [u "google"; u "facebook"; u "analytics"; u "gtag"; u "hotjar"]
  then (script, st)
  else
    let absolute_url := urljoin (url st) src in
    let filename := sanitize_filename E absolute_url (u ".js") in
    let save_path := os_path_join (dirs_js st) filename in
    let '(success, st) := download_resource E st absolute_url save_path Js in
    if success then (set_attr script (u "src") (u "js/" ++ filename), st)
    else (script, st).

Definition process_js (st : job) (soup : list element) : list element * job :=
  for_each (fun el => bool_decide (tag el = u "script") && has_attr el (u "src"))
           process_script st soup.

(** The body of the loop of [process_fonts]. *)
Definition process_font (st : job) (link : element) : element * job :=
  if bool_decide (attrs link !! u "as" = Some (u "font")) then
    let href := strip (get_attr link (u "href")) in
    let absolute_url := urljoin (url st) href in
    let filename := sanitize_filename E absolute_url (u ".woff2") in
    let save_path := os_path_join (dirs_fonts st) filename in
    let '(success, st) := download_resource E st absolute_url save_path Font in
    if success then (set_attr link (u "href") (u "assets/fonts/" ++ filename), st)
    else (link, st)
  else (link, st).

Definition process_fonts (st : job) (soup : list element) : list element * job :=
  for_each (fun el => bool_decide (tag el = u "link") && has_rel el (u "preload")
                      && has_attr el (u "href"))
           process_font st soup.

(** The body of the loop of [process_icons]. *)
Definition process_icon (st : job) (link : element) : element * job :=
  if existsb (has_rel link) [u "icon"; u "shortcut icon"; u "apple-touch-icon"] then
    let href := strip (get_attr link (u "href")) in
    let absolute_url := urljoin (url st) href in
    let filename := sanitize_filename E absolute_url (u ".ico") in
    let save_path := os_path_join (dirs_icons st) filename in
    let '(success, st) := download_resource E st absolute_url save_path Image in
    if success then (set_attr link (u "href") (u "assets/icons/" ++ filename), st)
    else (link, st)
  else (link, st).

Definition process_icons (st : job) (soup : list element) : list element * job :=
  for_each (fun el => bool_decide (tag el = u "link") && has_attr el (u "href"))
           process_icon st soup.

(** Steps 3 to 7 of [process_page]. *)
Definition process_page (st : job) (soup : list element) : list element * job :=
  let '(soup, st) := process_images st soup in
  let '(soup, st) := process_css st soup in
  let '(soup, st) := process_js st soup in
  let '(soup, st) := process_fonts st soup in
  process_icons st soup.
End Passes.

(** ** app/quality.py: QualityScorer *)

(** What the scorer finds under a path: a regular file with its
    bytes, or a directory. *)
Inductive entry :=
  | File (content : bytes)
  | Dir.

(** The part of the output directory that the scorer looks at:
    the listing of [assets/images] and of [css], when they exist, and
    [index.html], when it exists. *)
Record output_tree := {
  images_dir : option (list (str * entry));
  css_dir : option (list (str * entry));
  index_html : option entry
}.

(** One category of [self.score]; [issues] keeps what each issue is
    about (a file name or a count) and not the wording. *)
Record category := {
  score : Z;
  issues : list str;
  total : nat;
  broken : nat;
  oversized : nat
}.

Record quality_report := {
  overall : Z;
  images : category;
  css : category;
  html : category
}.

(** [int(x)] for a number: truncation towards zero. *)
Definition py_int (x : Q) : Z := if Qle_bool 0 x then Qfloor x else Qceiling x.

(** [max(0, x)] *)
Definition max0 (x : Q) : Q := if Qle_bool x 0 then 0%Q else x.

Definition is_file (e : entry) : bool :=
  match e with File _ => true | Dir => false end.
Definition size_of (e : entry) : Z :=
  match e with File d => Z.of_nat (length d) | Dir => 0%Z end.

Section Scorer.
(** Python floats are binary64 numbers.  A float operation is the
    exact operation on rationals followed by [rnd], the rounding to
    the nearest float; a float literal is the rounding of the decimal
    it is written as. *)
Variable rnd : Q -> Q.

Definition fdiv (x y : Q) : Q := rnd (x / y).
Definition fmul (x y : Q) : Q := rnd (x * y).
Definition fsub (x y : Q) : Q := rnd (x - y).
Definition fadd (x y : Q) : Q := rnd (x + y).

Definition check_images (t : output_tree) : category :=
  match images_dir t with
  | None => {| score := 100; issues := []; total := 0; broken := 0; oversized := 0 |}
  | Some listing =>
      let regular := filter (fun f => is_file (snd f)) listing in
      let total := length regular in
      let heavy := filter (fun f => (1500000 <? size_of (snd f))%Z) regular in
      let small := filter (fun f => (size_of (snd f) <? 100)%Z) regular in
      let oversized := length heavy in
      let broken := length small in
      let score :=
        if (total =? 0)%nat then 100%Q
        else
          let penalty := (Z.of_nat broken * 20 + Z.of_nat oversized * 5)%Z in
          max0 (fsub 100 (fmul (fdiv (inject_Z penalty) (inject_Z (Z.of_nat total))) 10)) in
      {| score := py_int score;
         issues := map fst (filter (fun f => (1500000 <? size_of (snd f))%Z
                                             || (size_of (snd f) <? 100)%Z) regular);
         total := total; broken := broken; oversized := oversized |}
  end.

(** The stylesheets that [check_css] opens: the entries of [css] whose
    name ends in [.css].  Opening one that is a directory raises, and
    nothing catches it. *)
Definition css_entries (listing : list (str * entry)) : list (str * entry) :=
  filter (fun f => endswith (fst f) (u ".css")) listing.

Definition is_broken_css (f : str * entry) : bool :=
  match snd f with
  | File d => contains (lower (read_text d)) (u "<html")
  | Dir => false
  end.

Definition check_css (t : output_tree) : option category :=
  match css_dir t with
  | None => Some {| score := 100; issues := []; total := 0; broken := 0; oversized := 0 |}
  | Some listing =>
      let sheets := css_entries listing in
      if forallb (fun f => is_file (snd f)) sheets then
        let total := length sheets in
        let bad := filter is_broken_css sheets in
        let broken := length bad in
        let score :=
          if (total =? 0)%nat then 100%Q
          else max0 (fsub 100 (fmul (fdiv (inject_Z (Z.of_nat broken))
                                          (inject_Z (Z.of_nat total))) 100)) in
        Some {| score := py_int score; issues := map fst bad;
                total := total; broken := broken; oversized := 0 |}
      else None
  end.

(** The two empty references and the three tracer signatures that
    [check_html] looks for. *)
Definition empty_src : str := u "src=" ++ [34; 34].
Definition empty_href : str := u "href=" ++ [34; 34].
Definition tracers : list str := [u "google-analytics"; u "fbq("; u "gtag("].

Definition check_html (t : output_tree) : option category :=
  match index_html t with
  | None => Some {| score := 0; issues := [u "Missing index.html"];
                    total := 0; broken := 0; oversized := 0 |}
  | Some Dir => None
  | Some (File d) =>
      let content := read_text d in
      let score := 100%Z in
      let broken_refs := (count content empty_src + count content empty_href)%nat in
      let score :=
        if (0 <? broken_refs)%nat
        then (score - Z.min 20 (Z.of_nat broken_refs * 2))%Z else score in
      let found_tracers := length (filter (contains content) tracers) in
      let score :=
        if (0 <? found_tracers)%nat
        then (score - Z.of_nat found_tracers * 5)%Z else score in
      Some {| score := Z.max 0 score;
              issues := filter (contains content) (empty_src :: empty_href :: tracers);
              total := 0; broken := broken_refs; oversized := 0 |}
  end.

(** [calculate_overall_score]: the weights are visited in the order
    html, css, images, and [sum] adds from the left, starting at 0. *)
Definition calculate_overall_score (html css images : category) : Z :=
  let weighted := [ fmul (inject_Z (score html)) (rnd (4 # 10));
                    fmul (inject_Z (score css)) (rnd (3 # 10));
                    fmul (inject_Z (score images)) (rnd (3 # 10)) ] in
  py_int (fold_left fadd weighted 0%Q).

Definition analyze_quality (t : output_tree) : option quality_report :=
  let images := check_images t in
  match check_css t with
  | None => None
  | Some css =>
      match check_html t with
      | None => None
      | Some html =>
          Some {| overall := calculate_overall_score html css images;
                  images := images; css := css; html := html |}
      end
  end.
End Scorer.

(** The trees that [analyze_quality] can read to the end: no directory
    bears the name of a stylesheet, and [index.html] is not one. *)
Definition readable (t : output_tree) : bool :=
  match css_dir t with
  | Some listing => forallb (fun f => is_file (snd f)) (css_entries listing)
  | None => true
  end
  && match index_html t with
     | Some Dir => false
     | _ => true
     end.

(** A score is an integer from 0 to 100. *)
Definition in_range (z : Z) : Prop := (0 <= z <= 100)%Z.

(** ** Vocabulary of the job-level properties *)

(** [later st st']: [st'] is a state of the same job as [st], reached
    after it: the page and the output directory are the same and the
    dedup set has only grown. *)
Definition later (st st' : job) : Prop :=
  url st' = url st /\ output_dir st' = output_dir st /\ downloaded st ⊆ downloaded st'.


(** What a pass leaves in a markup location: the element as it was,
    or the element with [attr] set to the local path made of [prefix]
    and of the file name derived from [absolute_url]. *)
Definition rewritten_or_kept (E : env) (el el' : element)
    (attr prefix ext absolute_url : str) : Prop :=
  el' = el \/ attrs el' !! attr = Some (prefix ++ sanitize_filename E absolute_url ext).


(** * Further definitions *)

(** What a pass may change of an element: nothing but the attributes
    [src], [href], [srcset] and [data-src]. *)
Definition same_but_references (el el' : element) : Prop :=
  tag el' = tag el /\ rel el' = rel el /\
  forall k, k <> u "src" -> k <> u "href" -> k <> u "srcset" -> k <> u "data-src" ->
            attrs el' !! k = attrs el !! k.

(** A world in which no request ever yields a payload. *)
Definition offline (E : env) : Prop :=
  forall n target body, network E n target = Response 200 (Some body) -> body = [].

(** [same_but_log st st']: the two states differ at most by the log
    of requests. *)
Definition same_but_log (st st' : job) : Prop :=
  url st' = url st /\ output_dir st' = output_dir st /\
  downloaded st' = downloaded st /\ fs st' = fs st.


(** ** Concrete worlds, jobs and documents

    The inputs at which the properties below are exercised. *)

(** A world with the network [net] in which every path can be
    written, the CSS compressor returns its input, Pillow leaves every
    file as it is, and no non-ASCII character counts as a letter. *)
Definition world (net : nat -> str -> response) : env :=
  {| network := net;
     writable := fun _ => true;
     csscompressor_installed := true;
     css_compress := fun s => Some s;
     pillow := fun _ d => (true, d);
     md5_hex8 := fun _ => u "d41d8cd9";
     isalnum := fun _ => false |}.

(** The same world, except that the CSS compressor raises on every
    input (as it does on a stylesheet it finds malformed). *)
Definition world_compressor_raises (net : nat -> str -> response) : env :=
  {| network := net;
     writable := fun _ => true;
     csscompressor_installed := true;
     css_compress := fun _ => None;
     pillow := fun _ d => (true, d);
     md5_hex8 := fun _ => u "d41d8cd9";
     isalnum := fun _ => false |}.

(** The job at its start. *)
Definition new_job (page_url out : str) : job :=
  {| url := page_url; output_dir := out; downloaded := ∅; fs := ∅; requests := [] |}.

(** An error page, as a server sends it in place of a missing
    resource. *)
Definition html_error_page : bytes :=
  b "<!doctype html><html><body><svg width=10></svg>Not found</body></html>".

(** Networks that answer every request alike. *)
Definition always (r : response) : nat -> str -> response := fun _ _ => r.

(** The world in which every request is answered with status 200 and
    the error page, and the job for the page [https://x.test/]. *)
Definition world_error_pages : env := world (always (Response 200 (Some html_error_page))).
Definition job_x : job := new_job (u "https://x.test/") (u "downloads/job").

(** [<link rel=preload as=font href=/fonts/a.woff2>] *)
Definition font_link : element :=
  {| tag := u "link";
     attrs := {[ u "href" := u "/fonts/a.woff2"; u "as" := u "font" ]};
     rel := Some [u "preload"] |}.

(** A stylesheet with an unterminated [url(], on which the CSS
    compressor raises: the two lines [a] and [b{c:url(x}]. *)
Definition malformed_css : bytes := b "a" ++ [x0a] ++ b "b{c:url(x}".
Definition css_path_x : str := u "downloads/job/css/site.css".

(** An output tree: one image of 40 bytes, one stylesheet, and an
    [index.html] with an empty [src]. *)
Definition sample_tree : output_tree :=
  {| images_dir := Some [(u "tiny.png", File (repeat x00 40))];
     css_dir := Some [(u "site.css", File (b "body{margin:0}")); (u "fonts", Dir)];
     index_html := Some (File (b "<html><img src=" ++ [x22; x22] ++ b "></html>")) |}.

(** A page that shows its logo and uses it as its icon, a page with
    two references to an image that the server does not have, and the
    worlds that answer every request with a PNG image or with status
    404. *)
Definition png_payload : bytes := x89 :: b "PNG" ++ [x0d; x0a; x1a; x0a] ++ repeat x00 120.
Definition world_png : env := world (always (Response 200 (Some png_payload))).
Definition world_404 : env := world (always (Response 404 (Some html_error_page))).
Definition img (src : str) : element :=
  {| tag := u "img"; attrs := {[ u "src" := src ]}; rel := None |}.
Definition icon_link (href : str) : element :=
  {| tag := u "link"; attrs := {[ u "href" := href ]}; rel := Some [u "icon"] |}.
Definition two_images : list element := [img (u "/missing.png"); img (u "/missing.png")].
Definition logo_page : list element := [img (u "/logo.png"); icon_link (u "/logo.png")].


(** ** Further inputs *)

(** * Properties *)

(** ** Sequences *)

Section SequenceFacts.
Context {A : Type} `{EqDecision A}.

Lemma startswith_contains (s p : list A) :
  startswith s p = true -> contains s p = true.
Proof.
  intros Hp. destruct s; simpl in *; rewrite Hp; reflexivity.
Qed.

Lemma startswith_nil (s : list A) : startswith s [] = true.
Proof. destruct s; reflexivity. Qed.
End SequenceFacts.

(** ** Validator *)

(** A payload whose text starts, in any letter case, with a doctype is
    rejected as a stylesheet. *)
Lemma is_valid_css_rejects_doctype (data : bytes) :
  startswith (lower (strip (decode_ignore data))) (u "<!doctype") = true ->
  is_valid_css data = false.
Proof.
  intros Hd. unfold is_valid_css. destruct data as [|c d]; [reflexivity|].
  cbv zeta. rewrite Hd. reflexivity.
Qed.

(** A payload whose text starts, in any letter case, with an [html]
    tag is rejected as a stylesheet. *)
Lemma is_valid_css_rejects_html_tag (data : bytes) :
  startswith (lower (strip (decode_ignore data))) (u "<html") = true ->
  is_valid_css data = false.
Proof.
  intros Hd. unfold is_valid_css. destruct data as [|c d]; [reflexivity|].
  cbv zeta. rewrite (startswith_contains _ _ Hd), orb_true_r. reflexivity.
Qed.

(** The same two facts for scripts. *)
Lemma is_valid_js_rejects_doctype (data : bytes) :
  startswith (lower (strip (decode_ignore data))) (u "<!doctype") = true ->
  is_valid_js data = false.
Proof.
  intros Hd. unfold is_valid_js. destruct data as [|c d]; [reflexivity|].
  cbv zeta. rewrite Hd. reflexivity.
Qed.

Lemma is_valid_js_rejects_html_tag (data : bytes) :
  startswith (lower (strip (decode_ignore data))) (u "<html") = true ->
  is_valid_js data = false.
Proof.
  intros Hd. unfold is_valid_js. destruct data as [|c d]; [reflexivity|].
  cbv zeta. rewrite (startswith_contains _ _ Hd), orb_true_r. reflexivity.
Qed.

(** An image payload is rejected when, after leading ASCII whitespace,
    it starts with exactly [<!DOCTYPE] or exactly [<html]: the test of
    [is_valid_image] is on the bytes as they are, letter case
    included. *)
Lemma is_valid_image_rejects_exact_signature (data : bytes) (url : str) :
  startswith (bytes_lstrip data) (b "<!DOCTYPE") = true
  \/ startswith (bytes_lstrip data) (b "<html") = true ->
  is_valid_image data url = false.
Proof.
  intros Hd. unfold is_valid_image. destruct data as [|c d]; [reflexivity|].
  destruct Hd as [-> | ->]; [reflexivity | rewrite orb_true_r; reflexivity].
Qed.

(** C3.  No-HTML-as-asset fails for images.  The error page
    [html_error_page] begins with an HTML doctype written in lower
    case.  [is_valid_css] and [is_valid_js], which compare the lowered
    text, reject it; [is_valid_image], which compares the bytes with
    the upper-case [<!DOCTYPE] only and then looks for [<svg] in the
    first 100 bytes, accepts it. *)
Theorem is_valid_image_accepts_html_page :
  startswith (lower (strip (decode_ignore html_error_page))) (u "<!doctype") = true
  /\ is_valid_css html_error_page = false
  /\ is_valid_js html_error_page = false
  /\ is_valid_image html_error_page (u "https://x.test/logo.png") = true.
Proof. vm_compute. repeat split; reflexivity. Qed.

(** ** Fetching *)

Section FetchFacts.
Variable E : env.

(** A fetch only adds its request to the log. *)
Lemma fetch_content_frame (st : job) (target : str) :
  snd (_fetch_content E st target) = with_requests st (requests st ++ [target]).
Proof.
  unfold _fetch_content.
  destruct (network E (length (requests st)) target) as [|status body];
    [reflexivity|].
  destruct (status =? 200)%Z; reflexivity.
Qed.

(** The fetch stage touches neither the dedup set nor the files, and
    the log only grows. *)
Lemma fetch_with_fallback_frame (st : job) (target : str) :
  let st1 := snd (fetch_with_fallback E st target) in
  url st1 = url st /\ output_dir st1 = output_dir st /\
  downloaded st1 = downloaded st /\ fs st1 = fs st /\
  exists more, requests st1 = requests st ++ target :: more.
Proof.
  unfold fetch_with_fallback.
  pose proof (fetch_content_frame st target) as H1.
  destruct (_fetch_content E st target) as [content st1]. simpl in H1. subst st1.
  destruct (truthy content) as [c|].
  - simpl. repeat split. exists []. reflexivity.
  - destruct (get_cdn_url target) as [[|c r]|].
    + simpl. repeat split. exists []. reflexivity.
    + pose proof (fetch_content_frame
                    (with_requests st (requests st ++ [target])) (c :: r)) as H2.
      destruct (_fetch_content E _ (c :: r)) as [content2 st2]. simpl in H2. subst st2.
      simpl. repeat split. exists [c :: r]. rewrite <- app_assoc. reflexivity.
    + simpl. repeat split. exists []. reflexivity.
Qed.

(** What the fetch stage yields is never the empty payload. *)
Lemma fetch_with_fallback_nonempty (st : job) (target : str) (content : bytes) :
  fst (fetch_with_fallback E st target) = Some content -> content <> [].
Proof.
  unfold fetch_with_fallback.
  destruct (_fetch_content E st target) as [c1 st1].
  assert (Ht : forall o, truthy o = Some content -> content <> []).
  { intros [[|x d]|]; simpl; intros Ho; inversion Ho; discriminate. }
  destruct (truthy c1) as [c|] eqn:Hc1.
  - simpl. intros Hc. inversion Hc. subst. eapply Ht, Hc1.
  - destruct (get_cdn_url target) as [[|c r]|]; simpl; try discriminate.
    destruct (_fetch_content E st1 (c :: r)) as [c2 st2]. simpl. apply Ht.
Qed.
End FetchFacts.

(** C5, as the code has it.  A fetch never raises (it is a total
    function to an optional payload), it logs one request, and it
    yields the payload exactly when the request returns a response
    whose status is 200 and whose body can be read; every other
    status, 2xx or not, a timeout and a connection error all yield
    failure. *)
Theorem fetch_content_yields_payload_iff_status_200 (E : env) (st : job) (target : str) :
  requests (snd (_fetch_content E st target)) = requests st ++ [target]
  /\ (forall body,
        fst (_fetch_content E st target) = Some body
        <-> network E (length (requests st)) target = Response 200 (Some body))
  /\ (fst (_fetch_content E st target) = None
      <-> forall body, network E (length (requests st)) target <> Response 200 (Some body)).
Proof.
  split; [rewrite fetch_content_frame; reflexivity|].
  unfold _fetch_content.
  destruct (network E (length (requests st)) target) as [|status body].
  - split; [intros body; split; discriminate|]. split; [discriminate | reflexivity].
  - destruct (Z.eqb_spec status 200) as [->|Hs]; simpl.
    + split.
      * intros body'. split; intros Hb; inversion Hb; reflexivity.
      * split; [intros -> body' Hb; discriminate|].
        destruct body as [body|]; [|reflexivity].
        intros Hn. exfalso. eapply Hn. reflexivity.
    + split.
      * intros body'. split; [discriminate|]. intros Hb. inversion Hb. contradiction.
      * split; [|reflexivity]. intros _ body' Hb. inversion Hb. contradiction.
Qed.

(** C5, as the specification has it, fails: a response with status
    206 and a body is a 2xx response, and the fetch yields nothing. *)
Lemma fetch_content_rejects_status_206 :
  ~ (forall (E : env) (st : job) (target : str) (status : Z) (body : bytes),
        network E (length (requests st)) target = Response status (Some body) ->
        (200 <= status < 300)%Z ->
        fst (_fetch_content E st target) = Some body).
Proof.
  intros Hclaim.
  specialize (Hclaim (world (always (Response 206 (Some (b "partial")))))
                     (new_job (u "https://x.test/") (u "downloads/job"))
                     (u "https://x.test/a.js") 206%Z (b "partial")
                     eq_refl ltac:(lia)).
  vm_compute in Hclaim. discriminate.
Qed.

(** ** Resolution of one resource *)

(** C4.  When the fetch stage has obtained a payload and the check
    for the kind of the resource rejects it, [download_resource]
    reports failure, and neither the files nor the dedup set have
    changed: nothing is written for the resource and its URL is not
    marked as resolved. *)
Theorem invalid_payload_is_discarded
    (E : env) (st st1 : job) (target save_path : str) (kind : resource_type)
    (content : bytes) :
  target ∉ downloaded st ->
  fetch_with_fallback E st target = (Some content, st1) ->
  is_valid kind content target = false ->
  download_resource E st target save_path kind = (false, st1)
  /\ fs st1 = fs st
  /\ downloaded st1 = downloaded st.
Proof.
  intros Hnew Hfetch Hbad.
  pose proof (fetch_with_fallback_frame E st target) as Hframe.
  rewrite Hfetch in Hframe. simpl in Hframe.
  destruct Hframe as (_ & _ & Hd & Hf & _).
  split; [|split; assumption].
  unfold download_resource.
  rewrite bool_decide_eq_false_2 by assumption.
  rewrite Hfetch, Hbad. reflexivity.
Qed.

Lemma invalid_payload_is_discarded_witness :
  let E := world (always (Response 200 (Some html_error_page))) in
  let st := new_job (u "https://x.test/") (u "downloads/job") in
  let target := u "https://x.test/site.css" in
  let st1 := with_requests st [target] in
  download_resource E st target (u "downloads/job/css/site.css") Css = (false, st1)
  /\ fs st1 = fs st
  /\ downloaded st1 = downloaded st.
Proof.
  intros E st target st1.
  apply (invalid_payload_is_discarded E st st1 target
           (u "downloads/job/css/site.css") Css html_error_page).
  - apply not_elem_of_empty.
  - vm_compute. reflexivity.
  - vm_compute. reflexivity.
Defined.

Section ResolutionFacts.
Variable E : env.

(** A resource that is new to the job, whose payload is obtained and
    accepted, and whose path can be written: the URL enters the dedup
    set and the payload is written, then the optimizer of the kind
    runs on the file. *)
Lemma download_resource_accepts
    (st st1 : job) (target save_path : str) (kind : resource_type) (content : bytes) :
  target ∉ downloaded st ->
  fetch_with_fallback E st target = (Some content, st1) ->
  is_valid kind content target = true ->
  writable E save_path = true ->
  download_resource E st target save_path kind =
    (true,
     let st2 := persisted st1 target save_path content in
     match kind with
     | Image => with_fs st2 (snd (optimize_image E (fs st2) save_path))
     | Css => with_fs st2 (snd (minify_css E (fs st2) save_path None))
     | Js => with_fs st2 (snd (minify_js E (fs st2) save_path None))
     | _ => st2
     end).
Proof.
  intros Hnew Hfetch Hok Hw. unfold download_resource.
  rewrite bool_decide_eq_false_2 by assumption.
  rewrite Hfetch, Hok, Hw. reflexivity.
Qed.

(** A resource already in the dedup set: success at once, and the job
    is left exactly as it was. *)
Lemma download_resource_hit (st : job) (target save_path : str) (kind : resource_type) :
  target ∈ downloaded st ->
  download_resource E st target save_path kind = (true, st).
Proof.
  intros Hin. unfold download_resource.
  rewrite bool_decide_eq_true_2 by assumption. reflexivity.
Qed.
End ResolutionFacts.



(** ** Optimizer *)

Section OptimizerFacts.
Variable E : env.

(** When the compressor returns, [minify_css] leaves the files alone
    unless the compressed text is strictly shorter than the text
    read. *)
Lemma minify_css_guard (files0 : files) (input_path : str) (data : bytes) (minified : str) :
  files0 !! input_path = Some data ->
  css_compress E (read_text data) = Some minified ->
  (length minified <? length (read_text data))%nat = false ->
  minify_css E files0 input_path None = (false, files0).
Proof.
  intros Hfile Hc Hlen. unfold minify_css.
  destruct (csscompressor_installed E); [|reflexivity].
  simpl. rewrite Hfile, Hc, Hlen, andb_false_r. reflexivity.
Qed.

(** [minify_js] leaves the files alone unless removing the comments
    made the text strictly shorter. *)
Lemma minify_js_guard (files0 : files) (input_path : str) (data : bytes) :
  files0 !! input_path = Some data ->
  (length (strip_comments (read_text data)) <? length (read_text data))%nat = false ->
  minify_js E files0 input_path None = (false, files0).
Proof.
  intros Hfile Hlen. unfold minify_js. rewrite Hfile, Hlen. reflexivity.
Qed.
End OptimizerFacts.


(** ** Quality scores *)

Section ScoreFacts.
(** What the bounds need of the rounding of floats: it is monotone,
    it leaves the integers from 0 to 100 as they are, and the two
    weights of a full score round to no more than 40 and 30 (in
    binary64, [100 * 0.4] is 40.0 and [100 * 0.3] is 30.0). *)
Variable rnd : Q -> Q.
Hypothesis rnd_monotone : forall x y : Q, (x <= y)%Q -> (rnd x <= rnd y)%Q.
Hypothesis rnd_integer : forall z : Z, (0 <= z <= 100)%Z -> (rnd (inject_Z z) == inject_Z z)%Q.
Hypothesis rnd_40 : (fmul rnd 100 (rnd (4 # 10)) <= 40)%Q.
Hypothesis rnd_30 : (fmul rnd 100 (rnd (3 # 10)) <= 30)%Q.

Lemma rnd_nonneg (x : Q) : (0 <= x)%Q -> (0 <= rnd x)%Q.
Proof.
  intros Hx. rewrite <- (rnd_integer 0) by lia. apply rnd_monotone. exact Hx.
Qed.

Lemma rnd_le_int (x : Q) (z : Z) : (0 <= z <= 100)%Z -> (x <= inject_Z z)%Q -> (rnd x <= inject_Z z)%Q.
Proof.
  intros Hz Hx. rewrite <- (rnd_integer z) by lia. apply rnd_monotone. exact Hx.
Qed.

Lemma py_int_in_range (x : Q) : (0 <= x)%Q -> (x <= 100)%Q -> in_range (py_int x).
Proof.
  intros H0 H100. unfold py_int, in_range.
  assert (Hb : Qle_bool 0 x = true) by (apply Qle_bool_iff; exact H0).
  rewrite Hb. split.
  - change 0%Z with (Qfloor 0). apply Qfloor_resp_le. exact H0.
  - change 100%Z with (Qfloor 100). apply Qfloor_resp_le. exact H100.
Qed.

Lemma max0_in_range (x : Q) : (x <= 100)%Q -> (0 <= max0 x)%Q /\ (max0 x <= 100)%Q.
Proof.
  intros Hx. unfold max0. destruct (Qle_bool x 0) eqn:Hb.
  - split; [apply Qle_refl | discriminate].
  - split; [|exact Hx].
    apply Qnot_lt_le. intros Hlt. apply Qlt_le_weak in Hlt.
    apply Qle_bool_iff in Hlt. congruence.
Qed.

Lemma penalised_in_range (p t k : Q) :
  (0 <= p)%Q -> (0 <= t)%Q -> (0 <= k)%Q ->
  in_range (py_int (max0 (fsub rnd 100 (fmul rnd (fdiv rnd p t) k)))).
Proof.
  intros Hp Ht Hk.
  assert (H1 : (0 <= fdiv rnd p t)%Q).
  { apply rnd_nonneg. unfold Qdiv. apply Qmult_le_0_compat; [exact Hp|].
    apply Qinv_le_0_compat. exact Ht. }
  assert (H2 : (0 <= fmul rnd (fdiv rnd p t) k)%Q).
  { apply rnd_nonneg. apply Qmult_le_0_compat; assumption. }
  assert (H3 : (fsub rnd 100 (fmul rnd (fdiv rnd p t) k) <= 100)%Q).
  { apply (rnd_le_int _ 100); [lia|].
    apply Qle_trans with (100 - 0)%Q; [|unfold Qle; simpl; lia].
    apply Qplus_le_compat; [apply Qle_refl|]. apply Qopp_le_compat. exact H2. }
  destruct (max0_in_range _ H3). apply py_int_in_range; assumption.
Qed.


Lemma check_images_in_range (t : output_tree) : in_range (score (check_images rnd t)).
Proof.
  unfold check_images. destruct (images_dir t) as [listing|]; [|simpl; unfold in_range; lia].
  cbv zeta. simpl score.
  destruct (length (filter (fun f => is_file (snd f)) listing) =? 0)%nat.
  - unfold in_range. vm_compute. split; discriminate.
  - apply penalised_in_range.
    + unfold Qle; simpl; lia.
    + unfold Qle; simpl; lia.
    + unfold Qle; simpl; lia.
Qed.

Lemma check_css_in_range (t : output_tree) (c : category) :
  check_css rnd t = Some c -> in_range (score c).
Proof.
  unfold check_css. destruct (css_dir t) as [listing|].
  - destruct (forallb _ _); [|discriminate]. intros Hc. inversion Hc. clear Hc. simpl score.
    destruct (length (css_entries listing) =? 0)%nat.
    + unfold in_range. vm_compute. split; discriminate.
    + apply penalised_in_range.
      * unfold Qle; simpl; lia.
      * unfold Qle; simpl; lia.
      * unfold Qle; simpl; lia.
  - intros Hc. inversion Hc. simpl. unfold in_range. lia.
Qed.

Lemma check_html_in_range (t : output_tree) (c : category) :
  check_html t = Some c -> in_range (score c).
Proof.
  unfold check_html. destruct (index_html t) as [[d|]|]; [| discriminate |].
  - intros Hc. inversion Hc. clear Hc. simpl score. unfold in_range.
    destruct (0 <? _)%nat; destruct (0 <? _)%nat; lia.
  - intros Hc. inversion Hc. simpl. unfold in_range. lia.
Qed.

Lemma weighted_bounds (z : Z) (w : Q) (bound : Z) :
  in_range z -> (0 <= w)%Q -> (fmul rnd 100 w <= inject_Z bound)%Q ->
  (0 <= fmul rnd (inject_Z z) w)%Q /\ (fmul rnd (inject_Z z) w <= inject_Z bound)%Q.
Proof.
  intros [Hz0 Hz100] Hw Hb. split.
  - apply rnd_nonneg. apply Qmult_le_0_compat; [|exact Hw].
    unfold Qle; simpl; lia.
  - eapply Qle_trans; [|exact Hb]. apply rnd_monotone.
    apply Qmult_le_compat_r; [|exact Hw]. unfold Qle; simpl; lia.
Qed.

Lemma fadd_bounds (x y : Q) (bx bound : Z) :
  (0 <= bound <= 100)%Z ->
  (0 <= x)%Q -> (x <= inject_Z bx)%Q -> (0 <= y)%Q -> (y <= inject_Z (bound - bx))%Q ->
  (0 <= fadd rnd x y)%Q /\ (fadd rnd x y <= inject_Z bound)%Q.
Proof.
  intros Hb Hx0 Hx Hy0 Hy. split.
  - apply rnd_nonneg. apply Qle_trans with (0 + 0)%Q; [unfold Qle; simpl; lia|].
    apply Qplus_le_compat; assumption.
  - apply rnd_le_int; [exact Hb|].
    apply Qle_trans with (inject_Z bx + inject_Z (bound - bx))%Q.
    + apply Qplus_le_compat; assumption.
    + unfold Qle; simpl; lia.
Qed.

Lemma calculate_overall_score_in_range (h c i : category) :
  in_range (score h) -> in_range (score c) -> in_range (score i) ->
  in_range (calculate_overall_score rnd h c i).
Proof.
  intros Hh Hc Hi. unfold calculate_overall_score. simpl fold_left.
  assert (Hw4 : (0 <= rnd (4 # 10))%Q) by (apply rnd_nonneg; unfold Qle; simpl; lia).
  assert (Hw3 : (0 <= rnd (3 # 10))%Q) by (apply rnd_nonneg; unfold Qle; simpl; lia).
  destruct (weighted_bounds (score h) _ 40 Hh Hw4 rnd_40) as [Ha0 Ha].
  destruct (weighted_bounds (score c) _ 30 Hc Hw3 rnd_30) as [Hb0 Hb].
  destruct (weighted_bounds (score i) _ 30 Hi Hw3 rnd_30) as [Hc0 Hc1].
  destruct (fadd_bounds 0 (fmul rnd (inject_Z (score h)) (rnd (4 # 10))) 0 40
              ltac:(lia) ltac:(apply Qle_refl) ltac:(apply Qle_refl) Ha0 Ha) as [H10 H1].
  destruct (fadd_bounds _ (fmul rnd (inject_Z (score c)) (rnd (3 # 10))) 40 70
              ltac:(lia) H10 H1 Hb0 Hb) as [H20 H2].
  destruct (fadd_bounds _ (fmul rnd (inject_Z (score i)) (rnd (3 # 10))) 70 100
              ltac:(lia) H20 H2 Hc0 Hc1) as [H30 H3].
  apply py_int_in_range; assumption.
Qed.
End ScoreFacts.

(** C8.  Score bounds.  For every output tree that the scorer can
    read to the end it returns a report, and in every report it
    returns the three category scores and the overall score are
    integers from 0 to 100.  Floats are rationals rounded by [rnd], of
    which the first four hypotheses state what is used. *)
Theorem scores_are_in_range (rnd : Q -> Q) (t : output_tree) :
  (forall x y : Q, (x <= y)%Q -> (rnd x <= rnd y)%Q) ->
  (forall z : Z, (0 <= z <= 100)%Z -> (rnd (inject_Z z) == inject_Z z)%Q) ->
  (fmul rnd 100 (rnd (4 # 10)) <= 40)%Q ->
  (fmul rnd 100 (rnd (3 # 10)) <= 30)%Q ->
  (readable t = true -> is_Some (analyze_quality rnd t))
  /\ (forall r, analyze_quality rnd t = Some r ->
        in_range (score (html r)) /\ in_range (score (css r))
        /\ in_range (score (images r)) /\ in_range (overall r)).
Proof.
  intros Hmono Hint H40 H30. split.
  - unfold readable, analyze_quality, check_css, check_html. intros Hr.
    apply andb_prop in Hr. destruct Hr as [Hcss Hhtml].
    destruct (css_dir t) as [listing|].
    + rewrite Hcss. destruct (index_html t) as [[d|]|]; try discriminate; eauto.
    + destruct (index_html t) as [[d|]|]; try discriminate; eauto.
  - intros r. unfold analyze_quality.
    destruct (check_css rnd t) as [c|] eqn:Hc; [|discriminate].
    destruct (check_html t) as [h|] eqn:Hh; [|discriminate].
    intros Hr. inversion Hr. clear Hr. simpl.
    pose proof (check_html_in_range t h Hh) as Rh.
    pose proof (check_css_in_range rnd Hmono Hint t c Hc) as Rc.
    pose proof (check_images_in_range rnd Hmono Hint t) as Ri.
    repeat split; try (apply Rh || apply Rc || apply Ri).
    + apply (calculate_overall_score_in_range rnd Hmono Hint H40 H30 h c _ Rh Rc Ri).
    + apply (calculate_overall_score_in_range rnd Hmono Hint H40 H30 h c _ Rh Rc Ri).
Qed.

Lemma scores_are_in_range_witness :
  exists r, analyze_quality (fun q => q) sample_tree = Some r
            /\ in_range (score (html r)) /\ in_range (score (css r))
            /\ in_range (score (images r)) /\ in_range (overall r).
Proof.
  destruct (scores_are_in_range (fun q => q) sample_tree) as [Hsome Hrange].
  - intros x y Hxy. exact Hxy.
  - intros z _. apply Qeq_refl.
  - vm_compute. discriminate.
  - vm_compute. discriminate.
  - destruct (Hsome eq_refl) as [r Hr]. exists r. split; [exact Hr | exact (Hrange r Hr)].
Defined.

(** ** The job as a whole *)

Section JobFacts.
Variable E : env.

Lemma later_refl (st : job) : later st st.
Proof. repeat split; set_solver. Qed.

Lemma later_trans (st1 st2 st3 : job) : later st1 st2 -> later st2 st3 -> later st1 st3.
Proof.
  intros (Hu & Ho & Hd) (Hu' & Ho' & Hd'). repeat split; try congruence. set_solver.
Qed.

Lemma later_with_fs (st : job) (f : files) : later st (with_fs st f).
Proof. repeat split; set_solver. Qed.

Lemma download_resource_later (st : job) (target save_path : str) (kind : resource_type) :
  later st (snd (download_resource E st target save_path kind)).
Proof.
  unfold download_resource.
  destruct (bool_decide (target ∈ downloaded st)); [apply later_refl|].
  pose proof (fetch_with_fallback_frame E st target) as Hframe.
  destruct (fetch_with_fallback E st target) as [content st1]. simpl in Hframe.
  destruct Hframe as (Hu & Ho & Hd & Hf & _).
  assert (Hkeep : later st st1).
  { repeat split; [assumption | assumption | rewrite Hd; reflexivity]. }
  assert (Hadd : later st (with_downloaded st1 ({[target]} ∪ downloaded st1))).
  { repeat split; [assumption | assumption |]. simpl. rewrite Hd. apply union_subseteq_r. }
  destruct content as [content|]; [|exact Hkeep].
  destruct (negb (is_valid kind content target)); [exact Hkeep|].
  destruct (negb (writable E save_path)); [exact Hadd|].
  destruct kind; simpl; (eapply later_trans; [exact Hadd|]); repeat split; reflexivity.
Qed.

Lemma for_each_later (select : element -> bool) (body : job -> element -> element * job) :
  (forall st el, later st (snd (body st el))) ->
  forall doc st, later st (snd (for_each select body st doc)).
Proof.
  intros Hbody doc. induction doc as [|el doc IH]; intros st; simpl.
  - apply later_refl.
  - destruct (select el).
    + pose proof (Hbody st el) as H1. destruct (body st el) as [el1 st1]. simpl in H1.
      pose proof (IH st1) as H2. destruct (for_each select body st1 doc) as [doc2 st2].
      simpl in *. eapply later_trans; eassumption.
    + pose proof (IH st) as H2. destruct (for_each select body st doc) as [doc2 st2].
      exact H2.
Qed.

Lemma process_css_url_later (base_url : str) (acc : str * bool * job) (url_match : str) :
  later (snd acc) (snd (process_css_url E base_url acc url_match)).
Proof.
  destruct acc as [[css modified] st]. unfold process_css_url.
  destruct (_ || _); [apply later_refl|].
  destruct (any_in _ _).
  - pose proof (download_resource_later st (urljoin base_url url_match)
                  (os_path_join (dirs_fonts st) (sanitize_filename E (urljoin base_url url_match) []))
                  Font) as H.
    destruct (download_resource E st _ _ Font) as [[|] st1]; exact H.
  - destruct (any_in _ _); [|apply later_refl].
    pose proof (download_resource_later st (urljoin base_url url_match)
                  (os_path_join (dirs_images st) (sanitize_filename E (urljoin base_url url_match) []))
                  Image) as H.
    destruct (download_resource E st _ _ Image) as [[|] st1]; exact H.
Qed.

Lemma process_css_urls_later (st : job) (css_path base_url : str) :
  later st (process_css_urls E st css_path base_url).
Proof.
  unfold process_css_urls. destruct (fs st !! css_path) as [data|]; [|apply later_refl].
  assert (Hfold : forall urls acc,
             later (snd acc) (snd (fold_left (process_css_url E base_url) urls acc))).
  { induction urls as [|x urls IH]; intros acc; simpl; [apply later_refl|].
    eapply later_trans; [apply process_css_url_later | apply IH]. }
  specialize (Hfold (findall_css_urls (read_text data)) (read_text data, false, st)).
  destruct (fold_left _ _ _) as [[css modified] st1]. simpl in Hfold.
  destruct (modified && writable E css_path); [|exact Hfold].
  eapply later_trans; [exact Hfold | apply later_with_fs].
Qed.

Lemma process_image_later (st : job) (el : element) : later st (snd (process_image E st el)).
Proof.
  unfold process_image. destruct (_ || _); [apply later_refl|].
  match goal with |- context [download_resource E st ?a ?p ?k] =>
    pose proof (download_resource_later st a p k) as H;
    destruct (download_resource E st a p k) as [[|] st1]; exact H end.
Qed.

Lemma process_stylesheet_later (st : job) (el : element) :
  later st (snd (process_stylesheet E st el)).
Proof.
  unfold process_stylesheet. destruct (bool_decide _); [apply later_refl|].
  match goal with |- context [download_resource E st ?a ?p ?k] =>
    pose proof (download_resource_later st a p k) as H;
    destruct (download_resource E st a p k) as [[|] st1]; [|exact H] end.
  simpl. eapply later_trans; [exact H | apply process_css_urls_later].
Qed.

Lemma process_script_later (st : job) (el : element) : later st (snd (process_script E st el)).
Proof.
  unfold process_script. destruct (_ || _); [apply later_refl|].
  match goal with |- context [download_resource E st ?a ?p ?k] =>
    pose proof (download_resource_later st a p k) as H;
    destruct (download_resource E st a p k) as [[|] st1]; exact H end.
Qed.

Lemma process_font_later (st : job) (el : element) : later st (snd (process_font E st el)).
Proof.
  unfold process_font. destruct (bool_decide _); [|apply later_refl].
  match goal with |- context [download_resource E st ?a ?p ?k] =>
    pose proof (download_resource_later st a p k) as H;
    destruct (download_resource E st a p k) as [[|] st1]; exact H end.
Qed.

Lemma process_icon_later (st : job) (el : element) : later st (snd (process_icon E st el)).
Proof.
  unfold process_icon. destruct (existsb _ _); [|apply later_refl].
  match goal with |- context [download_resource E st ?a ?p ?k] =>
    pose proof (download_resource_later st a p k) as H;
    destruct (download_resource E st a p k) as [[|] st1]; exact H end.
Qed.

Lemma process_page_later (st : job) (doc : list element) :
  later st (snd (process_page E st doc)).
Proof.
  unfold process_page, process_images, process_css, process_js, process_fonts,
    process_icons.
  match goal with |- context [for_each ?sel (process_image E) st doc] =>
    pose proof (for_each_later sel _ process_image_later doc st) as H1 end.
  destruct (for_each _ (process_image E) st doc) as [d1 s1].
  match goal with |- context [for_each ?sel (process_stylesheet E) s1 d1] =>
    pose proof (for_each_later sel _ process_stylesheet_later d1 s1) as H2 end.
  destruct (for_each _ (process_stylesheet E) s1 d1) as [d2 s2].
  match goal with |- context [for_each ?sel (process_script E) s2 d2] =>
    pose proof (for_each_later sel _ process_script_later d2 s2) as H3 end.
  destruct (for_each _ (process_script E) s2 d2) as [d3 s3].
  match goal with |- context [for_each ?sel (process_font E) s3 d3] =>
    pose proof (for_each_later sel _ process_font_later d3 s3) as H4 end.
  destruct (for_each _ (process_font E) s3 d3) as [d4 s4].
  match goal with |- context [for_each ?sel (process_icon E) s4 d4] =>
    pose proof (for_each_later sel _ process_icon_later d4 s4) as H5 end.
  simpl in *.
  repeat (eapply later_trans; [eassumption|]). apply later_refl.
Qed.
End JobFacts.


Section Paths.
Variable E : env.

Lemma download_resource_true_resolved (st st1 : job) (target save_path : str)
    (kind : resource_type) :
  download_resource E st target save_path kind = (true, st1) -> target ∈ downloaded st1.
Proof.
  unfold download_resource.
  destruct (bool_decide (target ∈ downloaded st)) eqn:Hin.
  - intros Hr. inversion Hr. subst st1. apply bool_decide_eq_true_1 in Hin. exact Hin.
  - destruct (fetch_with_fallback E st target) as [[content|] st0]; [|discriminate].
    destruct (negb (is_valid kind content target)); [discriminate|].
    destruct (negb (writable E save_path)); [discriminate|].
    intros Hr. inversion Hr. destruct kind; simpl; set_solver.
Qed.

Lemma process_image_rewrites (st : job) (el : element) :
  rewritten_or_kept E el (fst (process_image E st el)) (u "src") (u "assets/images/")
    (u ".jpg") (urljoin (url st) (strip (get_attr el (u "src")))).
Proof.
  unfold process_image, rewritten_or_kept. destruct (_ || _); [left; reflexivity|].
  destruct (download_resource E st _ _ Image) as [[|] st1]; [|left; reflexivity].
  right. simpl.
  rewrite !lookup_delete_ne by (intros Hk; vm_compute in Hk; discriminate).
  apply lookup_insert_eq.
Qed.

Lemma process_stylesheet_rewrites (st : job) (el : element) :
  rewritten_or_kept E el (fst (process_stylesheet E st el)) (u "href") (u "css/")
    (u ".css") (urljoin (url st) (strip (get_attr el (u "href")))).
Proof.
  unfold process_stylesheet, rewritten_or_kept. destruct (bool_decide _); [left; reflexivity|].
  destruct (download_resource E st _ _ Css) as [[|] st1]; [|left; reflexivity].
  right. simpl. apply lookup_insert_eq.
Qed.

Lemma process_script_rewrites (st : job) (el : element) :
  rewritten_or_kept E el (fst (process_script E st el)) (u "src") (u "js/")
    (u ".js") (urljoin (url st) (strip (get_attr el (u "src")))).
Proof.
  unfold process_script, rewritten_or_kept. destruct (_ || _); [left; reflexivity|].
  destruct (download_resource E st _ _ Js) as [[|] st1]; [|left; reflexivity].
  right. simpl. apply lookup_insert_eq.
Qed.

Lemma process_font_rewrites (st : job) (el : element) :
  rewritten_or_kept E el (fst (process_font E st el)) (u "href") (u "assets/fonts/")
    (u ".woff2") (urljoin (url st) (strip (get_attr el (u "href")))).
Proof.
  unfold process_font, rewritten_or_kept. destruct (bool_decide _); [|left; reflexivity].
  destruct (download_resource E st _ _ Font) as [[|] st1]; [|left; reflexivity].
  right. simpl. apply lookup_insert_eq.
Qed.

Lemma process_icon_rewrites (st : job) (el : element) :
  rewritten_or_kept E el (fst (process_icon E st el)) (u "href") (u "assets/icons/")
    (u ".ico") (urljoin (url st) (strip (get_attr el (u "href")))).
Proof.
  unfold process_icon, rewritten_or_kept. destruct (existsb _ _); [|left; reflexivity].
  destruct (download_resource E st _ _ Image) as [[|] st1]; [|left; reflexivity].
  right. simpl. apply lookup_insert_eq.
Qed.
End Paths.




(** C1.  A rewritten reference without a file.  On [logo_page] the
    image is fetched, validated and written under [assets/images];
    the icon link has the same canonical URL, so its resolution stops
    at the dedup check with success, and its [href] is rewritten to a
    path under [assets/icons] at which the job has written nothing. *)
Theorem icon_reference_points_to_no_file :
  let result := process_page world_png job_x logo_page in
  fst result !! 1%nat = Some (set_attr (icon_link (u "/logo.png")) (u "href")
                                (u "assets/icons/logo.png"))
  /\ fs (snd result) !! u "downloads/job/assets/icons/logo.png" = None
  /\ fs (snd result) !! u "downloads/job/assets/images/logo.png" = Some png_payload
  /\ requests (snd result) = [u "https://x.test/logo.png"].
Proof. vm_compute. repeat split; reflexivity. Qed.

(** * Further properties *)

(** ** Resolution of one resource, continued *)

Section OptimizerFrame.
Variable E : env.

(** Each optimizer, run in place on [p], leaves every other path as
    it is and does not remove the file at [p]. *)
Lemma optimize_image_frame (files0 : files) (p q : str) :
  (q <> p -> snd (optimize_image E files0 p) !! q = files0 !! q)
  /\ (is_Some (files0 !! p) -> is_Some (snd (optimize_image E files0 p) !! p)).
Proof.
  unfold optimize_image. destruct (files0 !! p) as [data|] eqn:Hp.
  - destruct (pillow E p data) as [ok data']. simpl. split.
    + intros Hq. apply lookup_insert_ne. congruence.
    + intros _. rewrite lookup_insert_eq. eauto.
  - simpl. split; [reflexivity|]. rewrite Hp. auto.
Qed.

Lemma minify_css_fallback_frame (files0 : files) (p q : str) :
  (q <> p -> snd (minify_css_fallback E files0 p p) !! q = files0 !! q)
  /\ (is_Some (files0 !! p) -> is_Some (snd (minify_css_fallback E files0 p p) !! p)).
Proof.
  unfold minify_css_fallback. destruct (files0 !! p) as [data|] eqn:Hp.
  - destruct (writable E p); simpl.
    + split; [intros Hq; apply lookup_insert_ne; congruence|].
      intros _. rewrite lookup_insert_eq. eauto.
    + split; [reflexivity|]. rewrite Hp. auto.
  - simpl. split; [reflexivity|]. rewrite Hp. auto.
Qed.

Lemma minify_css_frame (files0 : files) (p q : str) :
  (q <> p -> snd (minify_css E files0 p None) !! q = files0 !! q)
  /\ (is_Some (files0 !! p) -> is_Some (snd (minify_css E files0 p None) !! p)).
Proof.
  pose proof (minify_css_fallback_frame files0 p q) as Hfb.
  unfold minify_css. destruct (negb (csscompressor_installed E)); [simpl; tauto|].
  destruct (files0 !! p) as [data|] eqn:Hp; [|exact Hfb].
  destruct (css_compress E (read_text data)) as [minified|]; [|exact Hfb].
  destruct (_ && _); [|simpl; rewrite Hp; split; [reflexivity | auto]].
  destruct (writable E p); [|exact Hfb]. simpl. split.
  - intros Hq. apply lookup_insert_ne. congruence.
  - intros _. rewrite lookup_insert_eq. eauto.
Qed.

Lemma minify_js_frame (files0 : files) (p q : str) :
  (q <> p -> snd (minify_js E files0 p None) !! q = files0 !! q)
  /\ (is_Some (files0 !! p) -> is_Some (snd (minify_js E files0 p None) !! p)).
Proof.
  unfold minify_js. destruct (files0 !! p) as [data|] eqn:Hp.
  - destruct (_ <? _)%nat; [|simpl; rewrite Hp; split; [reflexivity | auto]].
    destruct (writable E p); [|simpl; rewrite Hp; split; [reflexivity | auto]].
    simpl. split.
    + intros Hq. apply lookup_insert_ne. congruence.
    + intros _. rewrite lookup_insert_eq. eauto.
  - simpl. rewrite Hp. split; [reflexivity | auto].
Qed.
End OptimizerFrame.

Section ResolutionMore.
Variable E : env.

(** A resolution writes at most one file: every path other than
    [save_path] holds after the call what it held before. *)
Theorem download_resource_touches_only_save_path
    (st : job) (target save_path : str) (kind : resource_type) (q : str) :
  q <> save_path ->
  fs (snd (download_resource E st target save_path kind)) !! q = fs st !! q.
Proof.
  intros Hq. unfold download_resource.
  destruct (bool_decide (target ∈ downloaded st)); [reflexivity|].
  pose proof (fetch_with_fallback_frame E st target) as Hframe.
  destruct (fetch_with_fallback E st target) as [content st1]. simpl in Hframe.
  destruct Hframe as (_ & _ & _ & Hf & _).
  destruct content as [content|]; [|simpl; rewrite Hf; reflexivity].
  destruct (negb (is_valid kind content target)); [simpl; rewrite Hf; reflexivity|].
  destruct (negb (writable E save_path)); [simpl; rewrite Hf; reflexivity|].
  assert (Hins : (<[save_path := content]> (fs st1) : files) !! q = fs st !! q).
  { rewrite lookup_insert_ne by congruence. rewrite Hf. reflexivity. }
  destruct kind; simpl; try exact Hins.
  - rewrite (proj1 (optimize_image_frame E _ save_path q) Hq). exact Hins.
  - rewrite (proj1 (minify_css_frame E _ save_path q) Hq). exact Hins.
  - rewrite (proj1 (minify_js_frame E _ save_path q) Hq). exact Hins.
Qed.

(** A resolution that reports failure has written nothing. *)
Theorem failed_resolution_writes_nothing
    (st st1 : job) (target save_path : str) (kind : resource_type) :
  download_resource E st target save_path kind = (false, st1) ->
  fs st1 = fs st.
Proof.
  unfold download_resource.
  destruct (bool_decide (target ∈ downloaded st)); [discriminate|].
  pose proof (fetch_with_fallback_frame E st target) as Hframe.
  destruct (fetch_with_fallback E st target) as [content st0]. simpl in Hframe.
  destruct Hframe as (_ & _ & _ & Hf & _).
  destruct content as [content|].
  - destruct (negb (is_valid kind content target)).
    + intros Hr. inversion Hr. subst. exact Hf.
    + destruct (negb (writable E save_path)); [|discriminate].
      intros Hr. inversion Hr. simpl. exact Hf.
  - intros Hr. inversion Hr. subst. exact Hf.
Qed.

(** A first resolution that reports success has left a file at
    [save_path]. *)
Theorem first_resolution_leaves_a_file
    (st st1 : job) (target save_path : str) (kind : resource_type) :
  target ∉ downloaded st ->
  download_resource E st target save_path kind = (true, st1) ->
  is_Some (fs st1 !! save_path) /\ target ∈ downloaded st1.
Proof.
  intros Hnew Hres. split; [|eapply download_resource_true_resolved; exact Hres].
  revert Hres. unfold download_resource.
  rewrite bool_decide_eq_false_2 by assumption.
  destruct (fetch_with_fallback E st target) as [[content|] st0]; [|discriminate].
  destruct (negb (is_valid kind content target)); [discriminate|].
  destruct (negb (writable E save_path)); [discriminate|].
  intros Hr. inversion Hr. clear Hr.
  assert (Hins : is_Some ((<[save_path := content]> (fs st0) : files) !! save_path)).
  { rewrite lookup_insert_eq. eauto. }
  destruct kind; simpl; try exact Hins.
  - apply (proj2 (optimize_image_frame E _ save_path save_path)). exact Hins.
  - apply (proj2 (minify_css_frame E _ save_path save_path)). exact Hins.
  - apply (proj2 (minify_js_frame E _ save_path save_path)). exact Hins.
Qed.
End ResolutionMore.

Lemma download_resource_touches_only_save_path_witness :
  fs (snd (download_resource world_png job_x (u "https://x.test/logo.png")
             (u "downloads/job/assets/images/logo.png") Image))
    !! u "downloads/job/index.html"
  = fs job_x !! u "downloads/job/index.html".
Proof.
  apply download_resource_touches_only_save_path.
  intros Hq. vm_compute in Hq. discriminate Hq.
Defined.

Lemma failed_resolution_writes_nothing_witness :
  fs (snd (download_resource world_404 job_x (u "https://x.test/missing.png")
             (u "downloads/job/assets/images/missing.png") Image))
  = fs job_x.
Proof.
  apply (failed_resolution_writes_nothing world_404 job_x _
           (u "https://x.test/missing.png")
           (u "downloads/job/assets/images/missing.png") Image).
  vm_compute. reflexivity.
Defined.

Lemma first_resolution_leaves_a_file_witness :
  let st1 := snd (download_resource world_png job_x (u "https://x.test/logo.png")
                    (u "downloads/job/assets/images/logo.png") Image) in
  is_Some (fs st1 !! u "downloads/job/assets/images/logo.png")
  /\ u "https://x.test/logo.png" ∈ downloaded st1.
Proof.
  intros st1.
  apply (first_resolution_leaves_a_file world_png job_x st1
           (u "https://x.test/logo.png")
           (u "downloads/job/assets/images/logo.png") Image).
  - apply not_elem_of_empty.
  - vm_compute. reflexivity.
Defined.

(** ** Fallback and fetch stage *)

(** A substitute returned by [get_cdn_url] is the entry of a key of the
    catalogue that occurs in the lowered URL. *)
Lemma get_cdn_url_in_catalogue (target cdn : str) :
  get_cdn_url target = Some cdn ->
  exists key, In (key, cdn) cdn_map /\ contains (lower target) key = true.
Proof.
  unfold get_cdn_url.
  destruct (List.find (fun kv => contains (lower target) (fst kv)) cdn_map)
    as [[key c]|] eqn:Hfind; [|discriminate].
  simpl. intros Hc. inversion Hc. subst c.
  apply find_some in Hfind. destruct Hfind as [Hin Hk]. exists key. split; assumption.
Qed.

(** No substitute is the empty URL. *)
Lemma get_cdn_url_nonempty (target : str) : get_cdn_url target <> Some [].
Proof.
  intros Hc. apply get_cdn_url_in_catalogue in Hc. destruct Hc as (key & Hin & _).
  unfold cdn_map in Hin. simpl in Hin.
  repeat (destruct Hin as [Hin|Hin]; [inversion Hin|]). exact Hin.
Qed.

(** The fetch stage is one request, or two.  When the primary request
    yields a non-empty payload, or when the catalogue has no
    substitute for the URL, the stage is that request alone.  Otherwise
    exactly one more request follows, for the substitute, and its
    outcome is the outcome of the stage: there is no further retry. *)
Theorem fetch_with_fallback_single_retry (E : env) (st : job) (target : str) :
  let primary := truthy (fst (_fetch_content E st target)) in
  let st1 := with_requests st (requests st ++ [target]) in
  (fetch_with_fallback E st target = (primary, st1)
   /\ (is_Some primary \/ get_cdn_url target = None))
  \/ (exists cdn,
        primary = None /\ get_cdn_url target = Some cdn
        /\ fetch_with_fallback E st target
           = (truthy (fst (_fetch_content E st1 cdn)),
              with_requests st (requests st ++ [target; cdn]))).
Proof.
  intros primary st1. unfold fetch_with_fallback. subst primary.
  pose proof (fetch_content_frame E st target) as H1.
  destruct (_fetch_content E st target) as [content s1]. simpl in H1. subst s1. simpl fst.
  fold st1. destruct (truthy content) as [c|] eqn:Hc.
  - left. split; [reflexivity | left; eauto].
  - destruct (get_cdn_url target) as [cdn|] eqn:Hcdn.
    + destruct cdn as [|c r]; [exfalso; eapply get_cdn_url_nonempty; exact Hcdn|].
      right. exists (c :: r). split; [reflexivity|]. split; [reflexivity|].
      pose proof (fetch_content_frame E st1 (c :: r)) as H2.
      destruct (_fetch_content E st1 (c :: r)) as [content2 s2]. simpl in H2. subst s2.
      simpl. unfold with_requests. simpl. rewrite <- app_assoc. reflexivity.
    + left. split; [reflexivity | right; reflexivity].
Qed.

(** ** A run without network *)

Section Offline.
Variable E : env.
Hypothesis Hoff : offline E.

Lemma same_but_log_refl (st : job) : same_but_log st st.
Proof. repeat split. Qed.

Lemma same_but_log_trans (st1 st2 st3 : job) :
  same_but_log st1 st2 -> same_but_log st2 st3 -> same_but_log st1 st3.
Proof. intros (?&?&?&?) (?&?&?&?). repeat split; congruence. Qed.

Lemma offline_fetch_content (st : job) (target : str) :
  truthy (fst (_fetch_content E st target)) = None.
Proof.
  unfold _fetch_content.
  destruct (network E (length (requests st)) target) as [|status body] eqn:Hn;
    [reflexivity|].
  destruct (Z.eqb_spec status 200) as [->|Hs]; [|reflexivity].
  destruct body as [body|]; [|reflexivity].
  rewrite (Hoff _ _ _ Hn). reflexivity.
Qed.

Lemma offline_fetch_with_fallback (st : job) (target : str) :
  fst (fetch_with_fallback E st target) = None.
Proof.
  destruct (fetch_with_fallback_single_retry E st target) as [[-> _]|(cdn & _ & _ & ->)];
    simpl; apply offline_fetch_content.
Qed.

Lemma offline_download_resource (st : job) (target save_path : str) (kind : resource_type) :
  downloaded st = ∅ ->
  fst (download_resource E st target save_path kind) = false
  /\ same_but_log st (snd (download_resource E st target save_path kind)).
Proof.
  intros Hd. unfold download_resource.
  rewrite bool_decide_eq_false_2 by (rewrite Hd; apply not_elem_of_empty).
  pose proof (offline_fetch_with_fallback st target) as Hnone.
  pose proof (fetch_with_fallback_frame E st target) as Hframe.
  destruct (fetch_with_fallback E st target) as [content st1]. simpl in *. subst content.
  destruct Hframe as (Hu & Ho & Hdd & Hf & _). simpl. repeat split; assumption.
Qed.

(** A loop whose body, in a state with an empty dedup set, leaves the
    element and everything but the log as they are. *)
Lemma offline_for_each (select : element -> bool) (body : job -> element -> element * job) :
  (forall st el, downloaded st = ∅ ->
                 fst (body st el) = el /\ same_but_log st (snd (body st el))) ->
  forall doc st, downloaded st = ∅ ->
                 fst (for_each select body st doc) = doc
                 /\ same_but_log st (snd (for_each select body st doc)).
Proof.
  intros Hbody doc. induction doc as [|el doc IH]; intros st Hd; simpl.
  - split; [reflexivity | apply same_but_log_refl].
  - destruct (select el).
    + destruct (Hbody st el Hd) as [Hel Hst].
      destruct (body st el) as [el1 st1]. simpl in Hel, Hst. subst el1.
      assert (Hd1 : downloaded st1 = ∅) by (destruct Hst as (_&_&->&_); exact Hd).
      destruct (IH st1 Hd1) as [Hdoc Hst2].
      destruct (for_each select body st1 doc) as [doc2 st2]. simpl in *. subst doc2.
      split; [reflexivity | eapply same_but_log_trans; eassumption].
    + destruct (IH st Hd) as [Hdoc Hst2].
      destruct (for_each select body st doc) as [doc2 st2]. simpl in *. subst doc2.
      split; [reflexivity | assumption].
Qed.

Ltac offline_body :=
  match goal with
  | Hd : downloaded ?st = ∅ |- context [download_resource E ?st ?a ?p ?k] =>
      let H := fresh in
      destruct (offline_download_resource st a p k Hd) as [H ?];
      destruct (download_resource E st a p k) as [? ?]; simpl in H; subst;
      split; [reflexivity | assumption]
  end.

Lemma offline_process_image (st : job) (el : element) :
  downloaded st = ∅ ->
  fst (process_image E st el) = el /\ same_but_log st (snd (process_image E st el)).
Proof.
  intros Hd. unfold process_image.
  destruct (_ || _); [split; [reflexivity | apply same_but_log_refl]|]. offline_body.
Qed.

Lemma offline_process_stylesheet (st : job) (el : element) :
  downloaded st = ∅ ->
  fst (process_stylesheet E st el) = el
  /\ same_but_log st (snd (process_stylesheet E st el)).
Proof.
  intros Hd. unfold process_stylesheet.
  destruct (bool_decide _); [split; [reflexivity | apply same_but_log_refl]|]. offline_body.
Qed.

Lemma offline_process_script (st : job) (el : element) :
  downloaded st = ∅ ->
  fst (process_script E st el) = el /\ same_but_log st (snd (process_script E st el)).
Proof.
  intros Hd. unfold process_script.
  destruct (_ || _); [split; [reflexivity | apply same_but_log_refl]|]. offline_body.
Qed.

Lemma offline_process_font (st : job) (el : element) :
  downloaded st = ∅ ->
  fst (process_font E st el) = el /\ same_but_log st (snd (process_font E st el)).
Proof.
  intros Hd. unfold process_font.
  destruct (bool_decide _); [|split; [reflexivity | apply same_but_log_refl]]. offline_body.
Qed.

Lemma offline_process_icon (st : job) (el : element) :
  downloaded st = ∅ ->
  fst (process_icon E st el) = el /\ same_but_log st (snd (process_icon E st el)).
Proof.
  intros Hd. unfold process_icon.
  destruct (existsb _ _); [|split; [reflexivity | apply same_but_log_refl]]. offline_body.
Qed.
End Offline.



(** ** The shape of the document *)

Lemma same_but_references_refl (el : element) : same_but_references el el.
Proof. repeat split. Qed.

Lemma same_but_references_trans (e1 e2 e3 : element) :
  same_but_references e1 e2 -> same_but_references e2 e3 -> same_but_references e1 e3.
Proof.
  intros (T1 & R1 & A1) (T2 & R2 & A2). repeat split; try congruence.
  intros k H1 H2 H3 H4. rewrite A2, A1 by assumption. reflexivity.
Qed.

Lemma same_but_references_set_src (el : element) (v : str) :
  same_but_references el (set_attr el (u "src") v).
Proof.
  repeat split. intros k H1 _ _ _. simpl. apply lookup_insert_ne. congruence.
Qed.

Lemma same_but_references_set_href (el : element) (v : str) :
  same_but_references el (set_attr el (u "href") v).
Proof.
  repeat split. intros k _ H2 _ _. simpl. apply lookup_insert_ne. congruence.
Qed.

Lemma same_but_references_del (el : element) (k0 : str) :
  k0 = u "srcset" \/ k0 = u "data-src" -> same_but_references el (del_attr el k0).
Proof.
  intros Hk. repeat split. intros k _ _ H3 H4. simpl. apply lookup_delete_ne.
  destruct Hk; congruence.
Qed.

Section Shape.
Variable E : env.

Lemma for_each_same_but_references (select : element -> bool)
    (body : job -> element -> element * job) :
  (forall st el, same_but_references el (fst (body st el))) ->
  forall doc st, Forall2 same_but_references doc (fst (for_each select body st doc)).
Proof.
  intros Hbody doc. induction doc as [|el doc IH]; intros st; simpl; [constructor|].
  destruct (select el).
  - pose proof (Hbody st el) as Hel. destruct (body st el) as [el1 st1]. simpl in Hel.
    pose proof (IH st1) as Hdoc. destruct (for_each select body st1 doc) as [doc2 st2].
    simpl in *. constructor; assumption.
  - pose proof (IH st) as Hdoc. destruct (for_each select body st doc) as [doc2 st2].
    simpl in *. constructor; [apply same_but_references_refl | assumption].
Qed.

Lemma Forall2_same_but_references_trans (l1 l2 l3 : list element) :
  Forall2 same_but_references l1 l2 -> Forall2 same_but_references l2 l3 ->
  Forall2 same_but_references l1 l3.
Proof.
  intros H12. revert l3. induction H12 as [|x y l l' Hxy _ IH]; intros l3 H23.
  - inversion H23. constructor.
  - inversion H23 as [|y' z l2' l3' Hyz Hrest]; subst.
    constructor; [eapply same_but_references_trans; eassumption | apply IH; assumption].
Qed.

Lemma process_image_shape (st : job) (el : element) :
  same_but_references el (fst (process_image E st el)).
Proof.
  unfold process_image. destruct (_ || _); [apply same_but_references_refl|].
  destruct (download_resource E st _ _ Image) as [[|] st1];
    [|apply same_but_references_refl].
  simpl. eapply same_but_references_trans; [apply same_but_references_set_src|].
  eapply same_but_references_trans; apply same_but_references_del; auto.
Qed.

Lemma process_stylesheet_shape (st : job) (el : element) :
  same_but_references el (fst (process_stylesheet E st el)).
Proof.
  unfold process_stylesheet. destruct (bool_decide _); [apply same_but_references_refl|].
  destruct (download_resource E st _ _ Css) as [[|] st1];
    [apply same_but_references_set_href | apply same_but_references_refl].
Qed.

Lemma process_script_shape (st : job) (el : element) :
  same_but_references el (fst (process_script E st el)).
Proof.
  unfold process_script. destruct (_ || _); [apply same_but_references_refl|].
  destruct (download_resource E st _ _ Js) as [[|] st1];
    [apply same_but_references_set_src | apply same_but_references_refl].
Qed.

Lemma process_font_shape (st : job) (el : element) :
  same_but_references el (fst (process_font E st el)).
Proof.
  unfold process_font. destruct (bool_decide _); [|apply same_but_references_refl].
  destruct (download_resource E st _ _ Font) as [[|] st1];
    [apply same_but_references_set_href | apply same_but_references_refl].
Qed.

Lemma process_icon_shape (st : job) (el : element) :
  same_but_references el (fst (process_icon E st el)).
Proof.
  unfold process_icon. destruct (existsb _ _); [|apply same_but_references_refl].
  destruct (download_resource E st _ _ Image) as [[|] st1];
    [apply same_but_references_set_href | apply same_but_references_refl].
Qed.

(** The asset passes keep the shape of the document: the output of
    [process_page] has the elements of the input, in the same order,
    each with its tag, its [rel] and all its attributes except [src],
    [href], [srcset] and [data-src], which are the only ones a pass
    writes or deletes. *)
Theorem process_page_keeps_the_document_shape (st : job) (doc : list element) :
  Forall2 same_but_references doc (fst (process_page E st doc)).
Proof.
  unfold process_page, process_images, process_css, process_js, process_fonts,
    process_icons.
  match goal with |- context [for_each ?sel (process_image E) st doc] =>
    pose proof (for_each_same_but_references sel _ process_image_shape doc st) as H1 end.
  destruct (for_each _ (process_image E) st doc) as [d1 s1].
  match goal with |- context [for_each ?sel (process_stylesheet E) s1 d1] =>
    pose proof (for_each_same_but_references sel _ process_stylesheet_shape d1 s1) as H2 end.
  destruct (for_each _ (process_stylesheet E) s1 d1) as [d2 s2].
  match goal with |- context [for_each ?sel (process_script E) s2 d2] =>
    pose proof (for_each_same_but_references sel _ process_script_shape d2 s2) as H3 end.
  destruct (for_each _ (process_script E) s2 d2) as [d3 s3].
  match goal with |- context [for_each ?sel (process_font E) s3 d3] =>
    pose proof (for_each_same_but_references sel _ process_font_shape d3 s3) as H4 end.
  destruct (for_each _ (process_font E) s3 d3) as [d4 s4].
  match goal with |- context [for_each ?sel (process_icon E) s4 d4] =>
    pose proof (for_each_same_but_references sel _ process_icon_shape d4 s4) as H5 end.
  simpl in *.
  eapply Forall2_same_but_references_trans; [exact H1|].
  eapply Forall2_same_but_references_trans; [exact H2|].
  eapply Forall2_same_but_references_trans; [exact H3|].
  eapply Forall2_same_but_references_trans; [exact H4|]. exact H5.
Qed.
End Shape.
